(** * The watchdog of the Pionex trading bot, verified against its specification

    Shallow embedding of [src/watchdog.py]: the [Watchdog] class (a monitor
    object with a background polling thread), the restart trigger with its
    durable log file, and the module-level registry around the global
    [_watchdog_instance].

    Modelling conventions.
    - Python integers are [Z]; a [datetime] is the number of microseconds
      since the start of the calendar, a [timedelta] a number of
      microseconds, so that subtraction and comparison are exact.
    - Objects live in a heap and are named by references; the thread table,
      the file system and the logging output are shared state.
    - A Python statement sequence is a computation in the monad [M]: state
      passing, with a result that is a value or a raised exception.  State
      changes made before an exception is raised persist, as in Python.
    - What the program cannot control (the clock, whether a thread can be
      started, whether the module runs as a script, what the disk does) is an
      environment [Env] given to each step.
    - A call of a function or method, and a pass of the background loop, is
      one step of the model, and an execution is an interleaving of such
      steps in any order.  The source takes no lock, so the Python threads
      also interleave inside a call or a pass: the states between two
      statements of a method (say between the increment of line 90 and the
      write of line 140) are not states of the model.  The statements about
      one call or one pass taken alone do not depend on this; those about
      executions say what holds between the steps.
    - The readings of the clock are datetimes: the difference of two of them
      is always a timedelta. *)

From Stdlib Require Import ZArith Lia.
From stdpp Require Import base option list strings gmap.

(** ** Values, exceptions, log messages *)

(** Values stored in the dictionaries the code builds.  [VIso t] is the text
    [t.isoformat()] of the datetime [t]: the text is determined by [t] and
    determines it, so it is represented by [t] itself. *)
Inductive PyVal :=
| VNone
| VBool (b : bool)
| VInt (z : Z)
| VStr (s : string)
| VIso (t : Z).

Abbreviation PyDict := (gmap string PyVal).

(** The exceptions (all subclasses of [Exception]) that the modelled library
    calls can raise. *)
Inductive Exn :=
| NameError (name : string)
| OSError
| RuntimeError
| ValueError
| OverflowError.

Inductive Level := DEBUG | INFO | WARNING | ERROR | CRITICAL.

(** One constructor per message of the source, with the interpolated values
    as arguments. *)
Inductive Msg :=
| WatchdogDisabled                  (* "Watchdog disabled in configuration" *)
| AlreadyRunning                    (* "Watchdog already running" *)
| StartedSuccessfully               (* "Watchdog started successfully" *)
| FailedToStart (e : Exn)           (* "Failed to start watchdog: {e}" *)
| Stopped                           (* "Watchdog stopped" *)
| ErrorStopping (e : Exn)           (* "Error stopping watchdog: {e}" *)
| HeartbeatSent                     (* "Heartbeat sent" *)
| HeartbeatFailed (e : Exn)         (* "Heartbeat failed: {e}" *)
| LoopStarted                       (* "Watchdog monitoring loop started" *)
| HeartbeatTimeout (count : Z)      (* "Heartbeat timeout. Failure count: {n}" *)
| MaxFailuresReached                (* "Maximum failures reached. Triggering restart..." *)
| ErrorInLoop (e : Exn)             (* "Error in watchdog loop: {e}" *)
| TriggeringRestart                 (* "Watchdog triggering system restart" *)
| RestartTriggered                  (* "Restart triggered successfully" *)
| ErrorTriggeringRestart (e : Exn)  (* "Error triggering restart: {e}" *)
| ErrorSavingRestartLog (e : Exn)   (* "Error saving restart log: {e}" *)
| RootFailedToStart (e : Exn)       (* logging.error "Failed to start watchdog: {e}" *)
| RootFailedToStop (e : Exn).       (* logging.error "Failed to stop watchdog: {e}" *)

(** ** The data model *)

Definition ref := nat.
Definition tid := nat.

(** The configuration dictionary: the four documented keys, each of which
    may be absent. *)
Record Config := {
  cfg_enabled : option bool;
  cfg_heartbeat_interval : option Z;
  cfg_max_failures : option Z;
  cfg_auto_restart : option bool
}.

Definition empty_config : Config :=
  {| cfg_enabled := None; cfg_heartbeat_interval := None;
     cfg_max_failures := None; cfg_auto_restart := None |}.

(** The attributes of a [Watchdog] object. *)
Record Watchdog := {
  config : Config;
  enabled : bool;
  heartbeat_interval : Z;
  max_failures : Z;
  auto_restart : bool;
  failure_count : Z;
  last_heartbeat : option Z;
  is_running : bool;
  thread : option tid
}.

(** A [threading.Thread] whose target is the [_monitor_loop] of the object
    [target]: created, started and about to enter [_monitor_loop], at the
    [while] test, or finished. *)
Inductive ThreadState := Initial | Ready | Looping | Finished.

Record Thread := { target : ref; tstate : ThreadState }.

(** A line of the restart log: [JsonLine d] is the text [json.dumps(d)]
    followed by a newline; [Torn] is what a failed write may leave. *)
Inductive Line := JsonLine (d : PyDict) | Torn.

Record Sys := {
  threads : list Thread;
  dirs : gset string;
  files : gmap string (list Line);
  logbook : list (Level * Msg)
}.

(** A method runs on its receiver [obj], whose reference is [this]. *)
Record Frame := { this : ref; obj : Watchdog; fsys : Sys }.

(** The module: the heap of [Watchdog] objects, the global
    [_watchdog_instance], and the shared state. *)
Record World := {
  heap : list Watchdog;
  _watchdog_instance : option ref;
  sys : Sys
}.

(** ** The environment of a step *)

Inductive Disk :=
| DiskOk
| MkdirFails (e : Exn)
| OpenFails (e : Exn)
| WriteFails (e : Exn) (torn : bool).

Record Env := {
  clock : nat -> Z;            (* the k-th reading of datetime.now() in this step *)
  thread_start : option Exn;   (* Thread.start() raises this, if any *)
  script_mode : bool;          (* the module runs as __main__: lines 251-253
                                  bind the names json and Path *)
  disk : Disk
}.

(** ** The monad *)

Inductive Res (A : Type) :=
| Ok (a : A)
| Raise (e : Exn)
| Fault.                       (* a reference to no object: not a Python outcome *)
Arguments Ok {A} a.
Arguments Raise {A} e.
Arguments Fault {A}.

(** The counter is the number of clock readings taken so far in the step. *)
Definition M (St A : Type) : Type := Env -> nat -> St -> Res A * nat * St.

#[global] Instance M_ret {St} : MRet (M St) := fun A a _ k s => (Ok a, k, s).

#[global] Instance M_bind {St} : MBind (M St) := fun A B f m env k s =>
  match m env k s with
  | (Ok a, k', s') => f a env k' s'
  | (Raise e, k', s') => (Raise e, k', s')
  | (Fault, k', s') => (Fault, k', s')
  end.

Definition run {St A} (m : M St A) (env : Env) (s : St) : Res A * St :=
  let '(r, _, s') := m env 0%nat s in (r, s').

Definition gets {St A} (f : St -> A) : M St A := fun _ k s => (Ok (f s), k, s).

Definition modify {St} (f : St -> St) : M St unit := fun _ k s => (Ok tt, k, f s).

Definition ask {St A} (f : Env -> A) : M St A := fun env k s => (Ok (f env), k, s).

Definition raise {St A} (e : Exn) : M St A := fun _ k s => (Raise e, k, s).

(** [try: body except Exception as e: handler e]. *)
Definition try_except {St A} (body : M St A) (handler : Exn -> M St A) : M St A :=
  fun env k s =>
    match body env k s with
    | (Raise e, k', s') => handler e env k' s'
    | out => out
    end.

(** [datetime.now()]. *)
Definition datetime_now {St} : M St Z := fun env k s => (Ok (clock env k), S k, s).

(** The timedelta of [n] seconds, in microseconds. *)
Definition timedelta_seconds (n : Z) : Z := (n * 1000000)%Z.

(** A timedelta is kept as days, seconds and microseconds, and holds at most
    999999999 days either way. *)
Definition timedelta_fits (n : Z) : bool := (Z.abs (n / 86400) <=? 999999999)%Z.

(** [timedelta(seconds=n)]: an [OverflowError] when the days do not fit. *)
Definition timedelta {St} (n : Z) : M St Z :=
  if timedelta_fits n then mret (timedelta_seconds n) else raise OverflowError.

(** What [time.sleep(secs)] raises, if anything: the argument is first
    converted to nanoseconds in a signed 64-bit integer, an [OverflowError]
    when it does not fit; a negative argument is then a [ValueError]. *)
Definition sleep_error (secs : Z) : option Exn :=
  let ns := (secs * 1000000000)%Z in
  if negb ((- 2 ^ 63 <=? ns)%Z && (ns <? 2 ^ 63)%Z) then Some OverflowError
  else if (secs <? 0)%Z then Some ValueError
  else None.

(** [time.sleep(secs)]. *)
Definition sleep {St} (secs : Z) : M St unit :=
  match sleep_error secs with
  | Some e => raise e
  | None => mret tt
  end.

(** *** Shared state, reachable from a method and from the module *)

Class HasSys (St : Type) := { the_sys : St -> Sys; with_sys : Sys -> St -> St }.

#[global] Instance Frame_sys : HasSys Frame :=
  {| the_sys := fsys;
     with_sys y fr := {| this := this fr; obj := obj fr; fsys := y |} |}.

#[global] Instance World_sys : HasSys World :=
  {| the_sys := sys;
     with_sys y W := {| heap := heap W;
                        _watchdog_instance := _watchdog_instance W;
                        sys := y |} |}.

Definition with_threads (ths : list Thread) (y : Sys) : Sys :=
  {| threads := ths; dirs := dirs y; files := files y; logbook := logbook y |}.

Definition with_dirs (ds : gset string) (y : Sys) : Sys :=
  {| threads := threads y; dirs := ds; files := files y; logbook := logbook y |}.

Definition with_files (fs : gmap string (list Line)) (y : Sys) : Sys :=
  {| threads := threads y; dirs := dirs y; files := fs; logbook := logbook y |}.

Definition with_logbook (lb : list (Level * Msg)) (y : Sys) : Sys :=
  {| threads := threads y; dirs := dirs y; files := files y; logbook := lb |}.

Definition on_sys `{HasSys St} (f : Sys -> Sys) : M St unit :=
  modify (fun s => with_sys (f (the_sys s)) s).

(** [logger.<level>(msg)] and [logging.<level>(msg)]. *)
Definition logger `{HasSys St} (lvl : Level) (msg : Msg) : M St unit :=
  on_sys (fun y => with_logbook (logbook y ++ [(lvl, msg)]) y).

(** *** Threads *)

Definition set_tstate (st : ThreadState) (th : Thread) : Thread :=
  {| target := target th; tstate := st |}.

(** [threading.Thread(target=self._monitor_loop, daemon=True)]. *)
Definition Thread_new : M Frame tid := fun _ k fr =>
  let t := length (threads (fsys fr)) in
  (Ok t, k,
   with_sys (with_threads (threads (fsys fr) ++
                           [{| target := this fr; tstate := Initial |}])
                          (fsys fr)) fr).

(** [t.start()]. *)
Definition Thread_start `{HasSys St} (t : tid) : M St unit :=
  err ← ask thread_start;
  match err with
  | Some e => raise e
  | None => on_sys (fun y => with_threads (alter (set_tstate Ready) t (threads y)) y)
  end.

Definition alive (th : Thread) : bool :=
  match tstate th with Ready | Looping => true | Initial | Finished => false end.

(** [t.is_alive()]. *)
Definition Thread_is_alive `{HasSys St} (t : tid) : M St bool :=
  gets (fun s => from_option alive false (threads (the_sys s) !! t)).

(** [t.join(timeout=secs)] returns when the thread has finished or the
    timeout has passed; what the thread does meanwhile are steps of its
    own. *)
Definition Thread_join {St} (t : tid) (secs : Z) : M St unit := mret tt.

(** *** Files *)

(** Evaluating the name [Path] or [json]: bound only when the module runs as
    a script. *)
Definition global_name {St} (name : string) : M St unit :=
  bound ← ask script_mode;
  if bound : bool then mret tt else raise (NameError name).

(** [Path(p)]. *)
Definition Path {St} (p : string) : M St string := global_name "Path";; mret p.

(** [d.mkdir(exist_ok=True)]. *)
Definition mkdir_exist_ok `{HasSys St} (d : string) : M St unit :=
  dk ← ask disk;
  match dk with
  | MkdirFails e => raise e
  | _ => on_sys (fun y => with_dirs ({[d]} ∪ dirs y) y)
  end.

(** The lines of the file [p]; a file that does not exist has none. *)
Definition content (p : string) (fs : gmap string (list Line)) : list Line :=
  default [] (fs !! p).

(** The file [p] with the lines [ls] added at its end; the file exists
    afterwards. *)
Definition appended (p : string) (ls : list Line) (fs : gmap string (list Line))
    : gmap string (list Line) :=
  <[p := content p fs ++ ls]> fs.

(** [open(p, 'a', encoding='utf-8')]: creates the file when there is none. *)
Definition open_append `{HasSys St} (p : string) : M St string :=
  dk ← ask disk;
  match dk with
  | OpenFails e => raise e
  | _ => on_sys (fun y => with_files (appended p [] (files y)) y);;
         mret p
  end.

(** [json.dumps(d)], with the newline the f-string adds. *)
Definition json_dumps_line {St} (d : PyDict) : M St Line :=
  global_name "json";; mret (JsonLine d).

(** [f.write(text)] and the flush when the [with] block is left. *)
Definition write `{HasSys St} (f : string) (text : Line) : M St unit :=
  let append (l : Line) :=
    on_sys (fun y => with_files (appended f [l] (files y)) y) in
  dk ← ask disk;
  match dk with
  | WriteFails e torn => (if torn then append Torn else mret tt);; raise e
  | _ => append text
  end.

(** *** Attributes of the receiver *)

Definition getattr {A} (f : Watchdog -> A) : M Frame A := gets (fun fr => f (obj fr)).

Definition on_obj (f : Watchdog -> Watchdog) : M Frame unit :=
  modify (fun fr => {| this := this fr; obj := f (obj fr); fsys := fsys fr |}).

Definition with_failure_count (n : Z) (w : Watchdog) : Watchdog :=
  {| config := config w; enabled := enabled w;
     heartbeat_interval := heartbeat_interval w; max_failures := max_failures w;
     auto_restart := auto_restart w; failure_count := n;
     last_heartbeat := last_heartbeat w; is_running := is_running w;
     thread := thread w |}.

Definition with_last_heartbeat (t : option Z) (w : Watchdog) : Watchdog :=
  {| config := config w; enabled := enabled w;
     heartbeat_interval := heartbeat_interval w; max_failures := max_failures w;
     auto_restart := auto_restart w; failure_count := failure_count w;
     last_heartbeat := t; is_running := is_running w;
     thread := thread w |}.

Definition with_is_running (b : bool) (w : Watchdog) : Watchdog :=
  {| config := config w; enabled := enabled w;
     heartbeat_interval := heartbeat_interval w; max_failures := max_failures w;
     auto_restart := auto_restart w; failure_count := failure_count w;
     last_heartbeat := last_heartbeat w; is_running := b;
     thread := thread w |}.

Definition with_thread (t : option tid) (w : Watchdog) : Watchdog :=
  {| config := config w; enabled := enabled w;
     heartbeat_interval := heartbeat_interval w; max_failures := max_failures w;
     auto_restart := auto_restart w; failure_count := failure_count w;
     last_heartbeat := last_heartbeat w; is_running := is_running w;
     thread := t |}.

(** ** class Watchdog (lines 14-155) *)

(** [Watchdog.__init__] (lines 17-29). *)
Definition __init__ (cfg : option Config) : Watchdog :=
  let cfg := default empty_config cfg in            (* config or {} *)
  {| config := cfg;
     enabled := default true (cfg_enabled cfg);
     heartbeat_interval := default 30%Z (cfg_heartbeat_interval cfg);
     max_failures := default 3%Z (cfg_max_failures cfg);
     auto_restart := default true (cfg_auto_restart cfg);
     failure_count := 0;
     last_heartbeat := None;
     is_running := false;
     thread := None |}.

(** [Watchdog.start] (lines 31-50). *)
Definition start : M Frame bool :=
  en ← getattr enabled;
  if negb en then
    logger INFO WatchdogDisabled;;
    mret false
  else
    running ← getattr is_running;
    if running : bool then
      logger WARNING AlreadyRunning;;
      mret true
    else
      try_except
        (on_obj (with_is_running true);;
         t ← Thread_new;
         on_obj (with_thread (Some t));;
         Thread_start t;;
         logger INFO StartedSuccessfully;;
         mret true)
        (fun e =>
           logger ERROR (FailedToStart e);;
           on_obj (with_is_running false);;
           mret false).

(** [Watchdog.stop] (lines 52-65). *)
Definition stop : M Frame bool :=
  running ← getattr is_running;
  if negb running then
    mret true
  else
    try_except
      (on_obj (with_is_running false);;
       th ← getattr thread;
       match th with
       | Some t =>
           live ← Thread_is_alive t;
           if live : bool then Thread_join t 5 else mret tt
       | None => mret tt
       end;;
       logger INFO Stopped;;
       mret true)
      (fun e =>
         logger ERROR (ErrorStopping e);;
         mret false).

(** [Watchdog.heartbeat] (lines 67-76). *)
Definition heartbeat : M Frame bool :=
  try_except
    (now ← datetime_now;
     on_obj (with_last_heartbeat (Some now));;
     on_obj (with_failure_count 0);;
     logger DEBUG HeartbeatSent;;
     mret true)
    (fun e =>
       logger ERROR (HeartbeatFailed e);;
       mret false).

(** [Watchdog._save_restart_log] (lines 132-143). *)
Definition _save_restart_log (log_data : PyDict) : M Frame unit :=
  try_except
    (log_dir ← Path "logs";
     mkdir_exist_ok log_dir;;
     let log_file := log_dir +:+ "/" +:+ "watchdog_restarts.log" in
     f ← open_append log_file;
     text ← json_dumps_line log_data;
     write f text)
    (fun e => logger ERROR (ErrorSavingRestartLog e)).

(** The dictionary literal of lines 111-116. *)
Definition restart_record (now count : Z) (last : option Z) : PyDict :=
  <["timestamp" := VIso now]>
  (<["reason" := VStr "watchdog_max_failures"]>
  (<["failure_count" := VInt count]>
  (<["last_heartbeat" := from_option VIso VNone last]> ∅))).

(** [Watchdog._trigger_restart] (lines 105-130). *)
Definition _trigger_restart : M Frame unit :=
  try_except
    (logger CRITICAL TriggeringRestart;;
     now ← datetime_now;
     count ← getattr failure_count;
     last ← getattr last_heartbeat;
     let restart_log := restart_record now count last in
     _save_restart_log restart_log;;
     logger INFO RestartTriggered)
    (fun e => logger ERROR (ErrorTriggeringRestart e)).

(** [Watchdog._monitor_loop] (lines 78-103) is run in two kinds of step: the
    statement before the loop, and one pass through the [while]: its test
    and, when the test holds, its body.  A pass tells whether control is back
    at the test or has left the loop. *)
Inductive LoopCtl := Again | Exit.

Definition _monitor_loop_entry : M Frame unit :=
  logger INFO LoopStarted.

Definition _monitor_loop_pass : M Frame LoopCtl :=
  running ← getattr is_running;
  if negb running then
    mret Exit                                        (* while self.is_running *)
  else
    try_except
      (last ← getattr last_heartbeat;
       broke ←
         match last with
         | Some t =>                                 (* if self.last_heartbeat *)
             now ← datetime_now;
             let time_since_heartbeat := (now - t)%Z in
             interval ← getattr heartbeat_interval;
             max_allowed_time ← timedelta (interval * 2);
             if (max_allowed_time <? time_since_heartbeat)%Z then
               count ← getattr failure_count;
               on_obj (with_failure_count (count + 1));;
               count ← getattr failure_count;
               logger WARNING (HeartbeatTimeout count);;
               count ← getattr failure_count;
               limit ← getattr max_failures;
               if (limit <=? count)%Z then
                 logger ERROR MaxFailuresReached;;
                 auto ← getattr auto_restart;
                 (if auto : bool then _trigger_restart else mret tt);;
                 mret true                           (* break *)
               else mret false
             else mret false
         | None => mret false
         end;
       if broke : bool then mret Exit
       else
         interval ← getattr heartbeat_interval;
         sleep interval;;
         mret Again)
      (fun e =>
         logger ERROR (ErrorInLoop e);;
         interval ← getattr heartbeat_interval;
         sleep interval;;
         mret Again).

(** The dictionary literal of lines 147-155. *)
Definition status_literal (en running : bool) (count : Z) (last : option Z)
    (limit : Z) (auto : bool) (interval : Z) : PyDict :=
  <["enabled" := VBool en]>
  (<["running" := VBool running]>
  (<["failure_count" := VInt count]>
  (<["last_heartbeat" := from_option VIso VNone last]>
  (<["max_failures" := VInt limit]>
  (<["auto_restart" := VBool auto]>
  (<["heartbeat_interval" := VInt interval]> ∅)))))).

(** [Watchdog.get_status] (lines 145-155). *)
Definition get_status : M Frame PyDict :=
  en ← getattr enabled;
  running ← getattr is_running;
  count ← getattr failure_count;
  last ← getattr last_heartbeat;
  limit ← getattr max_failures;
  auto ← getattr auto_restart;
  interval ← getattr heartbeat_interval;
  mret (status_literal en running count last limit auto interval).

(** ** The module (lines 157-212) *)

(** A method call [r.m()]: the method runs on the object at [r], with the
    shared state, and the object is stored back. *)
Definition call {A} (r : ref) (m : M Frame A) : M World A := fun env k W =>
  match heap W !! r with
  | Some w =>
      let '(res, k', fr) := m env k {| this := r; obj := w; fsys := sys W |} in
      (res, k', {| heap := <[r := obj fr]> (heap W);
                   _watchdog_instance := _watchdog_instance W;
                   sys := fsys fr |})
  | None => (Fault, k, W)
  end.

(** [Watchdog(config)]: a new object on the heap. *)
Definition Watchdog_new (cfg : option Config) : M World ref := fun _ k W =>
  (Ok (length (heap W)), k,
   {| heap := heap W ++ [__init__ cfg];
      _watchdog_instance := _watchdog_instance W;
      sys := sys W |}).

Definition set_instance (o : option ref) : M World unit :=
  modify (fun W => {| heap := heap W; _watchdog_instance := o; sys := sys W |}).

(** [start_watchdog] (lines 160-175). *)
Definition start_watchdog (cfg : option Config) : M World (option ref) :=
  try_except
    (inst ← gets _watchdog_instance;
     running ← match inst with
               | Some r => call r (getattr is_running)
               | None => mret false
               end;
     match inst, running with
     | Some r, true => mret (Some r)
     | _, _ =>
         r ← Watchdog_new cfg;
         set_instance (Some r);;
         started ← call r start;
         if started : bool then mret (Some r) else mret None
     end)
    (fun e =>
       logger ERROR (RootFailedToStart e);;
       mret None).

(** [stop_watchdog] (lines 177-187). *)
Definition stop_watchdog : M World bool :=
  try_except
    (inst ← gets _watchdog_instance;
     match inst with
     | Some r => call r stop
     | None => mret true
     end)
    (fun e =>
       logger ERROR (RootFailedToStop e);;
       mret false).

(** The dictionary literal of lines 196-204. *)
Definition not_started : PyDict :=
  status_literal false false 0 None 3 true 30.

(** [get_watchdog_status] (lines 189-204). *)
Definition get_watchdog_status : M World PyDict :=
  inst ← gets _watchdog_instance;
  match inst with
  | Some r => call r get_status
  | None => mret not_started
  end.

(** [send_heartbeat] (lines 206-212). *)
Definition send_heartbeat : M World bool :=
  inst ← gets _watchdog_instance;
  running ← match inst with
            | Some r => call r (getattr is_running)
            | None => mret false
            end;
  match inst, running with
  | Some r, true => call r heartbeat
  | _, _ => mret false
  end.

(** ** Executions *)

Definition set_thread_state (t : tid) (st : ThreadState) : M World unit :=
  on_sys (fun y => with_threads (alter (set_tstate st) t (threads y)) y).

(** One scheduler step of the thread [t]: a started thread enters
    [_monitor_loop]; a thread in the loop makes one pass; an exception that
    leaves [_monitor_loop] ends the thread. *)
Definition Thread_run (t : tid) : M World unit :=
  ths ← gets (fun W => threads (sys W));
  match ths !! t with
  | Some th =>
      match tstate th with
      | Ready =>
          call (target th) _monitor_loop_entry;;
          set_thread_state t Looping
      | Looping =>
          try_except
            (ctl ← call (target th) _monitor_loop_pass;
             match ctl with
             | Again => mret tt
             | Exit => set_thread_state t Finished
             end)
            (fun _ => set_thread_state t Finished)
      | Initial | Finished => mret tt
      end
  | None => mret tt
  end.

(** What the threads of the program do: the calls of client code (the
    functions of the module, the constructor, the public methods on a
    reference it holds) and the steps of the monitor threads. *)
Inductive Method := MStart | MStop | MHeartbeat | MGetStatus.

Inductive Op :=
| OpStartWatchdog (cfg : option Config)
| OpStopWatchdog
| OpGetWatchdogStatus
| OpSendHeartbeat
| OpNew (cfg : option Config)
| OpMethod (r : ref) (m : Method)
| OpThread (t : tid).

Definition ignore {St A} (m : M St A) : M St unit := m;; mret tt.

Definition method (m : Method) : M Frame unit :=
  match m with
  | MStart => ignore start
  | MStop => ignore stop
  | MHeartbeat => ignore heartbeat
  | MGetStatus => ignore get_status
  end.

Definition exec (op : Op) : M World unit :=
  match op with
  | OpStartWatchdog cfg => ignore (start_watchdog cfg)
  | OpStopWatchdog => ignore stop_watchdog
  | OpGetWatchdogStatus => ignore get_watchdog_status
  | OpSendHeartbeat => ignore send_heartbeat
  | OpNew cfg => ignore (Watchdog_new cfg)
  | OpMethod r m => call r (method m)
  | OpThread t => Thread_run t
  end.

(** The state after a computation, whatever its result. *)
Definition after {St A} (m : M St A) (env : Env) (s : St) : St := (run m env s).2.

Definition execution (tr : list (Op * Env)) (W : World) : World :=
  foldl (fun W '(op, env) => after (exec op) env W) W tr.

(** The module when it has just been loaded, on a disk with the directories
    [ds] and the files [fs]: the restart log outlives the process, and may
    hold the lines of earlier runs. *)
Definition loaded (ds : gset string) (fs : gmap string (list Line)) : World :=
  {| heap := [];
     _watchdog_instance := None;
     sys := {| threads := []; dirs := ds; files := fs; logbook := [] |} |}.

(** The same on an empty disk. *)
Definition boot : World := loaded ∅ ∅.

(** The worlds the program can be in, whatever the disk held at the start. *)
Definition reachable (W : World) : Prop := ∃ ds fs tr, W = execution tr (loaded ds fs).

(** The life of one monitor: the public methods and the passes of its loop,
    in the order in which they take effect. *)
Inductive Act := Call (m : Method) | Pass.

Definition act (a : Act) : M Frame unit :=
  match a with
  | Call m => method m
  | Pass => ignore _monitor_loop_pass
  end.

Definition life (tr : list (Act * Env)) (fr : Frame) : Frame :=
  foldl (fun fr '(a, env) => after (act a) env fr) fr tr.

(** The path of the restart log. *)
Definition restart_log_path : string := "logs/watchdog_restarts.log".

(** An environment in which everything works, with the clock at [now]. *)
Definition fair_at (now : Z) : Env :=
  {| clock := fun _ => now; thread_start := None; script_mode := true; disk := DiskOk |}.

(** The same when the module has been imported. *)
Definition imported_at (now : Z) : Env :=
  {| clock := fun _ => now; thread_start := None; script_mode := false; disk := DiskOk |}.

Definition seconds (n : Z) : Z := timedelta_seconds n.

(** The configuration of the scenario and of [main] (lines 219-224). *)
Definition test_config : Config :=
  {| cfg_enabled := Some true; cfg_heartbeat_interval := Some 5%Z;
     cfg_max_failures := Some 2%Z; cfg_auto_restart := Some true |}.

(** The passes of the loop when nothing else runs in between, one
    environment per pass: the result of the loop and the state it leaves,
    or no result when the environments run out with the loop still going. *)
Fixpoint _monitor_loop_passes (envs : list Env) (fr : Frame) : option (Res unit) * Frame :=
  match envs with
  | [] => (None, fr)
  | env :: envs =>
      match run _monitor_loop_pass env fr with
      | (Ok Again, fr') => _monitor_loop_passes envs fr'
      | (Ok Exit, fr') => (Some (Ok tt), fr')
      | (Raise e, fr') => (Some (Raise e), fr')
      | (Fault, fr') => (Some Fault, fr')
      end
  end.

(** [Watchdog._monitor_loop] (lines 78-103) as a whole: the statement before
    the loop in [env], then the passes. *)
Definition _monitor_loop (env : Env) (envs : list Env) (fr : Frame)
    : option (Res unit) * Frame :=
  _monitor_loop_passes envs (after _monitor_loop_entry env fr).

(** * Vocabulary of the statements *)

(** The environment lets the record reach the file: the names [Path] and
    [json] are bound and no file operation fails. *)
Definition disk_works (env : Env) : bool :=
  script_mode env && match disk env with DiskOk => true | _ => false end.

(** What a failed write may leave in the file. *)
Definition debris (ls : list Line) : Prop := ls = [] ∨ ls = [Torn].

(** The tests of lines 82, 85 and 89 together: the loop is running, a
    heartbeat has been recorded, twice the interval is a timedelta, and the
    clock reads more than that after the heartbeat. *)
Definition stale (env : Env) (w : Watchdog) : bool :=
  is_running w &&
  match last_heartbeat w with
  | Some t =>
      timedelta_fits (heartbeat_interval w * 2)
      && (timedelta_seconds (heartbeat_interval w * 2) <? clock env 0 - t)%Z
  | None => false
  end.

(** The test of line 93 on the incremented counter. *)
Definition escalates (env : Env) (w : Watchdog) : bool :=
  stale env w && (max_failures w <=? failure_count w + 1)%Z.

(** The settings of a monitor: what [__init__] reads from the
    configuration; no method assigns them afterwards. *)
Definition settings (w : Watchdog) : bool * Z * Z * bool :=
  (enabled w, heartbeat_interval w, max_failures w, auto_restart w).

(** The reading [now] comes at most [interval] seconds after the latest
    heartbeat [last], if there has been one. *)
Definition in_time (interval : Z) (last : option Z) (now : Z) : bool :=
  match last with
  | Some t => (now - t <=? timedelta_seconds interval)%Z
  | None => true
  end.

(** In the life [tr], each heartbeat comes at most [interval] seconds after
    the one before it, and each pass of the loop before the next heartbeat is
    due; [last] is the time of the latest heartbeat so far. *)
Fixpoint on_schedule (interval : Z) (last : option Z) (tr : list (Act * Env)) : bool :=
  match tr with
  | [] => true
  | (Call MHeartbeat, env) :: tr =>
      in_time interval last (clock env 0)
      && on_schedule interval (Some (clock env 0)) tr
  | (Pass, env) :: tr =>
      in_time interval last (clock env 0) && on_schedule interval last tr
  | (Call _, _) :: tr => on_schedule interval last tr
  end.

(** The global names an object that is on the heap. *)
Definition wf (W : World) : Prop :=
  match _watchdog_instance W with
  | Some r => r < length (heap W)
  | None => True
  end.

(** The monitor that [start_watchdog] and [send_heartbeat] take as running:
    the global instance, when its flag is set. *)
Definition running_instance (W : World) : option ref :=
  r ← _watchdog_instance W;
  w ← heap W !! r;
  if is_running w then Some r else None.

(** [Thread.start()] does not raise. *)
Definition can_start (env : Env) : bool :=
  match thread_start env with None => true | Some _ => false end.

(** The world once [start_watchdog(test_config)] has returned and the
    thread has entered its loop. *)
Definition monitoring : World :=
  {| heap := [with_thread (Some 0%nat) (with_is_running true (__init__ (Some test_config)))];
     _watchdog_instance := Some 0%nat;
     sys := {| threads := [{| target := 0%nat; tstate := Looping |}];
               dirs := ∅; files := ∅;
               logbook := [(INFO, StartedSuccessfully); (INFO, LoopStarted)] |} |}.

(** What well-formedness depends on: the size of the heap and the global. *)
Definition shape (W : World) : nat * option ref :=
  (length (heap W), _watchdog_instance W).

(** A computation that neither allocates nor assigns the global. *)
Definition steady {A} (m : M World A) : Prop :=
  ∀ env k W, shape (m env k W).2 = shape W.

(** The run of the failing input of C1: the monitor is started with the
    configuration of [main], one heartbeat is sent, and the loop finds it
    stale twice. *)
Definition escalation_run : list (Op * Env) :=
  [ (OpStartWatchdog (Some test_config), fair_at 0);
    (OpThread 0, fair_at 0);
    (OpSendHeartbeat, fair_at 0);
    (OpThread 0, fair_at (seconds 15));
    (OpThread 0, fair_at (seconds 20)) ].


(** A monitor that escalates at the first stale pass and does not restart. *)
Definition quiet_config : Config :=
  {| cfg_enabled := Some true; cfg_heartbeat_interval := Some 5%Z;
     cfg_max_failures := Some 1%Z; cfg_auto_restart := Some false |}.

(** That monitor, running, with a heartbeat recorded at time 0. *)
Definition quiet_frame : Frame :=
  {| this := 0%nat;
     obj := with_last_heartbeat (Some 0%Z)
              (with_is_running true (__init__ (Some quiet_config)));
     fsys := sys boot |}.

(** A life with the settings of [test_config] in which heartbeats come every
    three seconds and the loop polls every five. *)
Definition steady_life : list (Act * Env) :=
  [ (Call MStart, fair_at 0);
    (Pass, fair_at 0);
    (Call MHeartbeat, fair_at (seconds 3));
    (Pass, fair_at (seconds 5));
    (Call MHeartbeat, fair_at (seconds 6));
    (Call MHeartbeat, fair_at (seconds 9));
    (Pass, fair_at (seconds 10));
    (Call MGetStatus, fair_at (seconds 11));
    (Call MHeartbeat, fair_at (seconds 12));
    (Pass, fair_at (seconds 15)) ].

(** ** Vocabulary of the invariants *)

(** The thread table once the thread [t] has ended. *)
Definition finish (t : tid) (y : Sys) : Sys :=
  with_threads (alter (set_tstate Finished) t (threads y)) y.

(** What every monitor satisfies at all times: the counter is not negative,
    it is 0 as long as no heartbeat has been recorded, and a monitor that is
    disabled is not running and has no thread. *)
Definition sound (w : Watchdog) : Prop :=
  (0 ≤ failure_count w)%Z
  ∧ (last_heartbeat w = None → failure_count w = 0%Z)
  ∧ (enabled w = false → is_running w = false ∧ thread w = None).

(** The states of a thread in the order in which it goes through them. *)
Definition rank (st : ThreadState) : nat :=
  match st with Initial => 0 | Ready => 1 | Looping => 2 | Finished => 3 end.

(** The number of complete records among the lines of a file. *)
Definition records (ls : list Line) : nat :=
  length (omap (λ l, match l with JsonLine d => Some d | Torn => None end) ls).

(** The number of threads that have ended. *)
Definition finished (ths : list Thread) : nat :=
  length (omap (λ th, match tstate th with Finished => Some th | _ => None end) ths).

(** The number of threads that have entered the loop, ended or not. *)
Definition entered (ths : list Thread) : nat :=
  length (omap (λ th, match tstate th with
                      | Looping | Finished => Some th
                      | Initial | Ready => None
                      end) ths).

(** The file system [fs'] is [fs] with lines added at the end of the
    restart log, and nothing else changed. *)
Definition grown (fs fs' : gmap string (list Line)) : Prop :=
  fs' = fs ∨ ∃ ls, fs' = appended restart_log_path ls fs.

(** The computation [m] takes every state to one related to it by [R],
    whatever its result. *)
Definition always {St A} (R : relation St) (m : M St A) : Prop :=
  ∀ env k s, R s (m env k s).2.

(** What the public methods do to a frame at most: the settings and the
    files stay, threads are only added, a sound monitor stays sound. *)
Definition fquiet (fr fr' : Frame) : Prop :=
  settings (obj fr') = settings (obj fr)
  ∧ threads (fsys fr) `prefix_of` threads (fsys fr')
  ∧ files (fsys fr') = files (fsys fr)
  ∧ (sound (obj fr) → sound (obj fr')).

(** The same for the functions of the module, on the world. *)
Definition quiet (W W' : World) : Prop :=
  (∀ r w, heap W !! r = Some w →
          ∃ w', heap W' !! r = Some w' ∧ settings w' = settings w)
  ∧ (is_Some (_watchdog_instance W) → is_Some (_watchdog_instance W'))
  ∧ threads (sys W) `prefix_of` threads (sys W')
  ∧ files (sys W') = files (sys W)
  ∧ (Forall sound (heap W) → Forall sound (heap W')).

(** What any step of the program does to the world at most: objects stay
    on the heap with their settings, the global stays set, threads keep
    their target and only advance, the restart log only grows, sound
    monitors stay sound, and no more records are added than threads
    end. *)
Definition evolves (W W' : World) : Prop :=
  (∀ r w, heap W !! r = Some w →
          ∃ w', heap W' !! r = Some w' ∧ settings w' = settings w)
  ∧ (is_Some (_watchdog_instance W) → is_Some (_watchdog_instance W'))
  ∧ (∀ t th, threads (sys W) !! t = Some th →
             ∃ th', threads (sys W') !! t = Some th'
                    ∧ target th' = target th
                    ∧ rank (tstate th) ≤ rank (tstate th'))
  ∧ grown (files (sys W)) (files (sys W'))
  ∧ (Forall sound (heap W) → Forall sound (heap W'))
  ∧ records (content restart_log_path (files (sys W'))) + finished (threads (sys W))
    ≤ records (content restart_log_path (files (sys W))) + finished (threads (sys W')).

(** A line that the loop can have written: the record of lines 111-116 with
    the time of a heartbeat and a count that is not negative, or what a
    failed write leaves. *)
Definition genuine (l : Line) : Prop :=
  match l with
  | JsonLine d => ∃ now n t, d = restart_record now n (Some t) ∧ (0 ≤ n)%Z
  | Torn => True
  end.

(** The number of passes of the loop in a life. *)
Fixpoint passes (tr : list (Act * Env)) : Z :=
  match tr with
  | [] => 0
  | (Pass, _) :: tr => 1 + passes tr
  | (Call _, _) :: tr => passes tr
  end.

(** A configuration that disables the monitor, and one with a negative
    interval. *)
Definition disabled_config : Config :=
  {| cfg_enabled := Some false; cfg_heartbeat_interval := None;
     cfg_max_failures := None; cfg_auto_restart := None |}.

Definition negative_config : Config :=
  {| cfg_enabled := Some true; cfg_heartbeat_interval := Some (-1)%Z;
     cfg_max_failures := None; cfg_auto_restart := None |}.

(** The module after [start_watchdog(disabled_config)]. *)
Definition disabled_world : World :=
  execution [(OpStartWatchdog (Some disabled_config), fair_at 0)] boot.

(** The module after [start_watchdog(negative_config)], the thread in its
    loop. *)
Definition negative_world : World :=
  execution [(OpStartWatchdog (Some negative_config), fair_at 0);
             (OpThread 0, fair_at 0)] boot.

(** [monitoring] after [stop_watchdog()], before the loop has noticed. *)
Definition stopped_world : World :=
  execution [(OpStopWatchdog, fair_at (seconds 1))] monitoring.

(** The monitor of [test_config], running, with a heartbeat recorded at
    time 0. *)
Definition stale_frame : Frame :=
  {| this := 0%nat;
     obj := with_last_heartbeat (Some 0%Z)
              (with_is_running true (__init__ (Some test_config)));
     fsys := sys boot |}.

(** One heartbeat, then two passes of the loop that find it stale. *)
Definition stale_run : list (Op * Env) :=
  [ (OpSendHeartbeat, fair_at 0);
    (OpThread 0, fair_at (seconds 15));
    (OpThread 0, fair_at (seconds 20)) ].

(** * Properties *)

Arguments appended : simpl never.
Arguments content : simpl never.
Arguments restart_record : simpl never.
Arguments status_literal : simpl never.
Arguments sleep_error : simpl never.
Arguments timedelta_fits : simpl never.

(** Unfolds the monad and its primitive operations, leaving the methods. *)
Ltac unfold_m :=
  cbv beta delta [run after ignore mbind M_bind mret M_ret gets modify ask raise
    try_except getattr on_obj logger on_sys sleep timedelta datetime_now Thread_join
    Thread_is_alive Thread_start Thread_new global_name Path mkdir_exist_ok
    open_append json_dumps_line write the_sys with_sys Frame_sys World_sys
    set_instance set_thread_state Watchdog_new];
  cbn.

(** ** Files and dictionaries *)

Lemma content_appended p ls fs : content p (appended p ls fs) = content p fs ++ ls.
Proof. unfold content, appended. by rewrite lookup_insert_eq. Qed.

Lemma content_appended_ne p q ls fs :
  p ≠ q → content q (appended p ls fs) = content q fs.
Proof. intros Hne. unfold content, appended. by rewrite lookup_insert_ne. Qed.

Lemma appended_appended p ls ls' fs :
  appended p ls' (appended p ls fs) = appended p (ls ++ ls') fs.
Proof.
  unfold appended at 1. rewrite content_appended.
  unfold appended. by rewrite insert_insert_eq, <- (assoc (++)).
Qed.

Lemma log_file_is_restart_log_path :
  "logs" +:+ "/" +:+ "watchdog_restarts.log" = restart_log_path.
Proof. reflexivity. Qed.

Lemma status_literal_fields en running count last limit auto interval :
  let d := status_literal en running count last limit auto interval in
  d !! "enabled" = Some (VBool en)
  ∧ d !! "running" = Some (VBool running)
  ∧ d !! "failure_count" = Some (VInt count)
  ∧ d !! "last_heartbeat" = Some (from_option VIso VNone last)
  ∧ d !! "max_failures" = Some (VInt limit)
  ∧ d !! "auto_restart" = Some (VBool auto)
  ∧ d !! "heartbeat_interval" = Some (VInt interval).
Proof. repeat split; reflexivity. Qed.

Lemma restart_record_fields now count last :
  let d := restart_record now count last in
  d !! "timestamp" = Some (VIso now)
  ∧ d !! "reason" = Some (VStr "watchdog_max_failures")
  ∧ d !! "failure_count" = Some (VInt count)
  ∧ d !! "last_heartbeat" = Some (from_option VIso VNone last)
  ∧ dom d = {["timestamp"; "reason"; "failure_count"; "last_heartbeat"]}.
Proof.
  repeat split; reflexivity.
Qed.

(** ** The restart trigger *)

Lemma save_restart_log_spec d env k fr :
  ∃ y, _save_restart_log d env k fr =
         (Ok tt, k, {| this := this fr; obj := obj fr; fsys := y |})
    ∧ threads y = threads (fsys fr)
    ∧ if disk_works env then
        files y = appended restart_log_path [JsonLine d] (files (fsys fr))
        ∧ logbook y = logbook (fsys fr)
      else
        ∃ e ls, debris ls
          ∧ content restart_log_path (files y)
            = content restart_log_path (files (fsys fr)) ++ ls
          ∧ logbook y = logbook (fsys fr) ++ [(ERROR, ErrorSavingRestartLog e)].
Proof.
  unfold _save_restart_log, disk_works. unfold_m.
  destruct (script_mode env); cbn.
  - destruct (disk env) as [|e|e|e torn]; cbn.
    + eexists; split; [reflexivity|]. cbn.
      by rewrite log_file_is_restart_log_path, appended_appended.
    + eexists; split; [reflexivity|]. cbn. split; [done|].
      exists e, []. unfold debris. by rewrite app_nil_r; auto.
    + eexists; split; [reflexivity|]. cbn. split; [done|].
      exists e, []. unfold debris. by rewrite app_nil_r; auto.
    + destruct torn; cbn; (eexists; split; [reflexivity|]); cbn; (split; [done|]);
        rewrite log_file_is_restart_log_path.
      * exists e, [Torn]. unfold debris. rewrite appended_appended, content_appended. auto.
      * exists e, []. unfold debris. rewrite content_appended. auto.
  - eexists; split; [reflexivity|]. cbn. split; [done|].
    exists (NameError "Path"), []. unfold debris. by rewrite app_nil_r; auto.
Qed.

Lemma trigger_restart_spec env k fr :
  let record := restart_record (clock env k) (failure_count (obj fr))
                               (last_heartbeat (obj fr)) in
  let said := logbook (fsys fr) ++ [(CRITICAL, TriggeringRestart)] in
  ∃ y, _trigger_restart env k fr =
         (Ok tt, S k, {| this := this fr; obj := obj fr; fsys := y |})
    ∧ threads y = threads (fsys fr)
    ∧ if disk_works env then
        files y = appended restart_log_path [JsonLine record] (files (fsys fr))
        ∧ logbook y = said ++ [(INFO, RestartTriggered)]
      else
        ∃ e ls, debris ls
          ∧ content restart_log_path (files y)
            = content restart_log_path (files (fsys fr)) ++ ls
          ∧ logbook y = said ++ [(ERROR, ErrorSavingRestartLog e); (INFO, RestartTriggered)].
Proof.
  unfold _trigger_restart. unfold_m.
  match goal with
  | |- context [_save_restart_log ?d env ?k' ?fr'] =>
      destruct (save_restart_log_spec d env k' fr') as (y & -> & Hth & Hy)
  end.
  cbn in *. eexists; split; [reflexivity|]. cbn. split; [done|].
  destruct (disk_works env).
  - destruct Hy as [-> ->]. done.
  - destruct Hy as (e & ls & Hls & Hc & ->). exists e, ls.
    by rewrite <- (assoc (++)).
Qed.

(** C3, on the failing inputs: when the module has been imported rather than
    run as a script (the only way the repository uses it), the names [Path]
    and [json] are unbound: they are imported at lines 252-253, under the
    test of line 251, and not with the other imports of lines 7-12.  Then the
    restart trigger appends no record, whatever the disk does and so also
    when it works: no file and no directory changes, the log of the program
    shows the [NameError] for [Path] between the two messages of the
    trigger, and the trigger returns as if it had succeeded.  The claim asks
    for exactly one record appended on every escalation. *)
Theorem restart_record_is_lost_when_imported env fr :
  script_mode env = false →
  let out := run _trigger_restart env fr in
  let record := restart_record (clock env 0) (failure_count (obj fr))
                               (last_heartbeat (obj fr)) in
  out.1 = Ok tt
  ∧ obj out.2 = obj fr
  ∧ files (fsys out.2) = files (fsys fr)
  ∧ dirs (fsys out.2) = dirs (fsys fr)
  ∧ content restart_log_path (files (fsys out.2))
    ≠ content restart_log_path (files (fsys fr)) ++ [JsonLine record]
  ∧ logbook (fsys out.2) =
      logbook (fsys fr) ++ [(CRITICAL, TriggeringRestart);
                            (ERROR, ErrorSavingRestartLog (NameError "Path"));
                            (INFO, RestartTriggered)].
Proof.
  intros Himp. cbv zeta. unfold _trigger_restart, _save_restart_log. unfold_m.
  rewrite Himp. cbn. do 4 (split; [done|]). split.
  - intros H. apply (f_equal length) in H. rewrite length_app in H. cbn in H. lia.
  - by rewrite <- ?(assoc (++)).
Qed.

(** ** One pass of the monitor loop *)

Arguments timedelta_seconds : simpl never.

(** The end of a pass that does not leave the loop: the sleep of line 99
    and, when it raises, the handler and the sleep of line 103. *)
Ltac pass_sleeps :=
  match goal with
  | |- context [sleep_error ?i] =>
      let Hs := fresh "Hs" in
      destruct (sleep_error i) eqn:Hs; cbn; rewrite ?Hs; cbn;
      do 3 eexists; (split; [reflexivity|]); done
  end.

Lemma pass_spec env fr :
  let w := obj fr in
  let count' := (failure_count w + 1)%Z in
  ∃ res k y,
    _monitor_loop_pass env 0 fr =
      (res, k, {| this := this fr;
                  obj := if stale env w then with_failure_count count' w else w;
                  fsys := y |})
    ∧ threads y = threads (fsys fr)
    ∧ res = (if negb (is_running w) || escalates env w then Ok Exit
             else match sleep_error (heartbeat_interval w) with
                  | Some e => Raise e
                  | None => Ok Again
                  end)
    ∧ if escalates env w then
        let said := logbook (fsys fr) ++
                    [(WARNING, HeartbeatTimeout count'); (ERROR, MaxFailuresReached)] in
        if auto_restart w then
          let record := restart_record (clock env 1) count' (last_heartbeat w) in
          if disk_works env then
            files y = appended restart_log_path [JsonLine record] (files (fsys fr))
            ∧ logbook y = said ++ [(CRITICAL, TriggeringRestart); (INFO, RestartTriggered)]
          else
            ∃ e ls, debris ls
              ∧ content restart_log_path (files y)
                = content restart_log_path (files (fsys fr)) ++ ls
              ∧ logbook y = said ++ [(CRITICAL, TriggeringRestart);
                                     (ERROR, ErrorSavingRestartLog e);
                                     (INFO, RestartTriggered)]
        else files y = files (fsys fr) ∧ logbook y = said
      else files y = files (fsys fr).
Proof.
  destruct fr as [r w y0]. cbn. unfold _monitor_loop_pass, escalates, stale. unfold_m.
  destruct (is_running w); cbn; [|by do 3 eexists; split; [reflexivity|]].
  destruct (last_heartbeat w) as [t|] eqn:Hlast; cbn.
  - destruct (timedelta_fits (heartbeat_interval w * 2)); cbn.
    + destruct (_ <? _ - _)%Z; cbn.
      * destruct (_ <=? _)%Z; cbn.
        -- destruct (auto_restart w); cbn.
           ++ match goal with
              | |- context [_trigger_restart env ?k' ?fr'] =>
                  destruct (trigger_restart_spec env k' fr') as (y & -> & Hth & Hy)
              end.
              cbn in *. rewrite Hlast in Hy.
              do 3 eexists. split; [reflexivity|]. do 2 (split; [done|]).
              destruct (disk_works env).
              ** destruct Hy as [-> ->]. split; [done|]. by rewrite <- !(assoc (++)).
              ** destruct Hy as (e & ls & Hls & Hc & ->). exists e, ls.
                 do 2 (split; [done|]). by rewrite <- !(assoc (++)).
           ++ do 3 eexists. split; [reflexivity|]. cbn.
              repeat split; by rewrite <- ?(assoc (++)).
        -- pass_sleeps.
      * pass_sleeps.
    + pass_sleeps.
  - pass_sleeps.
Qed.

(** A pass changes nothing in the monitor but the failure counter, which it
    increments exactly when the heartbeat is stale. *)
Lemma pass_obj env fr :
  obj (after _monitor_loop_pass env fr) =
    if stale env (obj fr)
    then with_failure_count (failure_count (obj fr) + 1) (obj fr)
    else obj fr.
Proof.
  destruct (pass_spec env fr) as (res & k & y & Heq & _).
  unfold after, run. by rewrite Heq.
Qed.

Lemma pass_result env fr :
  (run _monitor_loop_pass env fr).1 =
    if negb (is_running (obj fr)) || escalates env (obj fr) then Ok Exit
    else match sleep_error (heartbeat_interval (obj fr)) with
         | Some e => Raise e
         | None => Ok Again
         end.
Proof.
  destruct (pass_spec env fr) as (res & k & y & Heq & _ & -> & _).
  unfold run. by rewrite Heq.
Qed.

Lemma pass_this env fr : this (after _monitor_loop_pass env fr) = this fr.
Proof.
  destruct (pass_spec env fr) as (res & k & y & Heq & _).
  unfold after, run. by rewrite Heq.
Qed.

Lemma pass_threads env fr :
  threads (fsys (after _monitor_loop_pass env fr)) = threads (fsys fr).
Proof.
  destruct (pass_spec env fr) as (res & k & y & Heq & Hth & _).
  unfold after, run. by rewrite Heq.
Qed.

(** The loop never writes the flag it tests. *)
Lemma pass_keeps_is_running env fr :
  is_running (obj (after _monitor_loop_pass env fr)) = is_running (obj fr).
Proof. rewrite pass_obj. by destruct (stale env (obj fr)). Qed.

(** ** The public methods *)

Lemma heartbeat_spec env k fr :
  heartbeat env k fr =
    (Ok true, S k,
     {| this := this fr;
        obj := with_failure_count 0 (with_last_heartbeat (Some (clock env k)) (obj fr));
        fsys := with_logbook (logbook (fsys fr) ++ [(DEBUG, HeartbeatSent)]) (fsys fr) |}).
Proof. reflexivity. Qed.

Lemma get_status_spec env k fr :
  get_status env k fr =
    (Ok (status_literal (enabled (obj fr)) (is_running (obj fr))
           (failure_count (obj fr)) (last_heartbeat (obj fr))
           (max_failures (obj fr)) (auto_restart (obj fr))
           (heartbeat_interval (obj fr))), k, fr).
Proof. reflexivity. Qed.

Lemma stop_spec env k fr :
  stop env k fr =
    (Ok true, k,
     if is_running (obj fr)
     then {| this := this fr;
             obj := with_is_running false (obj fr);
             fsys := with_logbook (logbook (fsys fr) ++ [(INFO, Stopped)]) (fsys fr) |}
     else fr).
Proof.
  unfold stop. unfold_m.
  destruct (is_running (obj fr)); cbn; [|done].
  destruct (thread (obj fr)); cbn; [|done].
  by destruct (from_option alive false _).
Qed.

(** The thread table after [Thread(...)] and [start()] on it. *)
Lemma alter_new_thread (ths : list Thread) th st :
  alter (set_tstate st) (length ths) (ths ++ [th]) = ths ++ [set_tstate st th].
Proof.
  induction ths as [|x ths IH]; cbn; [done|].
  f_equal. apply IH.
Qed.

Lemma start_spec env k fr :
  start env k fr =
    if negb (enabled (obj fr)) then
      (Ok false, k,
       with_sys (with_logbook (logbook (fsys fr) ++ [(INFO, WatchdogDisabled)]) (fsys fr)) fr)
    else if is_running (obj fr) then
      (Ok true, k,
       with_sys (with_logbook (logbook (fsys fr) ++ [(WARNING, AlreadyRunning)]) (fsys fr)) fr)
    else
      let t := length (threads (fsys fr)) in
      let created st := threads (fsys fr) ++ [{| target := this fr; tstate := st |}] in
      match thread_start env with
      | None =>
          (Ok true, k,
           {| this := this fr;
              obj := with_thread (Some t) (with_is_running true (obj fr));
              fsys := with_logbook (logbook (fsys fr) ++ [(INFO, StartedSuccessfully)])
                        (with_threads (created Ready) (fsys fr)) |})
      | Some e =>
          (Ok false, k,
           {| this := this fr;
              obj := with_is_running false
                       (with_thread (Some t) (with_is_running true (obj fr)));
              fsys := with_logbook (logbook (fsys fr) ++ [(ERROR, FailedToStart e)])
                        (with_threads (created Initial) (fsys fr)) |})
      end.
Proof.
  unfold start. unfold_m.
  destruct (enabled (obj fr)); cbn; [|done].
  destruct (is_running (obj fr)); cbn; [done|].
  destruct (thread_start env); cbn; [done|].
  by rewrite alter_new_thread.
Qed.

(** C4 as stated fails: with [enabled] true and the monitor not running,
    [start()] returns false when the thread cannot be started, and
    [is_running] is false afterwards. *)
Lemma start_returns_false_when_thread_cannot_start :
  let fr := {| this := 0%nat; obj := __init__ (Some test_config); fsys := sys boot |} in
  let env := {| clock := fun _ => 0%Z; thread_start := Some RuntimeError;
                script_mode := true; disk := DiskOk |} in
  enabled (obj fr) = true
  ∧ is_running (obj fr) = false
  ∧ (run start env fr).1 = Ok false
  ∧ is_running (obj (after start env fr)) = false
  ∧ ¬ ((run start env fr).1 = Ok true ∧ is_running (obj (after start env fr)) = true).
Proof. cbn. repeat split. intros [? _]. discriminate. Qed.

(** C4, amended: [start()] returns false without starting the loop when
    [enabled] is false; returns true without touching the monitor or the
    threads when it is already running; otherwise it sets [is_running],
    creates the thread of the polling loop and starts it, returning true;
    and when starting the thread raises, it resets [is_running] to false
    and returns false, with no thread running. *)
Theorem start_contract env fr :
  let out := run start env fr in
  let fr' := out.2 in
  if negb (enabled (obj fr)) then
    out.1 = Ok false
    ∧ obj fr' = obj fr
    ∧ threads (fsys fr') = threads (fsys fr)
  else if is_running (obj fr) then
    out.1 = Ok true
    ∧ obj fr' = obj fr
    ∧ threads (fsys fr') = threads (fsys fr)
  else
    let t := length (threads (fsys fr)) in
    match thread_start env with
    | None =>
        out.1 = Ok true
        ∧ is_running (obj fr') = true
        ∧ thread (obj fr') = Some t
        ∧ threads (fsys fr') =
            threads (fsys fr) ++ [{| target := this fr; tstate := Ready |}]
    | Some e =>
        out.1 = Ok false
        ∧ is_running (obj fr') = false
        ∧ threads (fsys fr') =
            threads (fsys fr) ++ [{| target := this fr; tstate := Initial |}]
    end.
Proof.
  cbn. unfold run. rewrite start_spec.
  destruct (enabled (obj fr)); cbn; [|done].
  destruct (is_running (obj fr)); cbn; [done|].
  by destruct (thread_start env).
Qed.

(** C5: [heartbeat()] returns true, sets [last_heartbeat] to the reading of
    the clock and [failure_count] to 0 whatever it was, and leaves the rest
    of the monitor alone; a second heartbeat leaves the monitor as that
    heartbeat alone would. *)
Theorem heartbeat_resets_and_is_idempotent env env' fr :
  let fr1 := after heartbeat env fr in
  (run heartbeat env fr).1 = Ok true
  ∧ obj fr1 = with_failure_count 0 (with_last_heartbeat (Some (clock env 0)) (obj fr))
  ∧ last_heartbeat (obj fr1) = Some (clock env 0)
  ∧ failure_count (obj fr1) = 0%Z
  ∧ obj (after heartbeat env' fr1) = obj (after heartbeat env' fr).
Proof. done. Qed.

(** C7: [stop()] returns true and leaves [is_running] false, so that
    [get_status()] reports running = false; a second [stop()] returns true
    as well and changes nothing. *)
Theorem stop_then_status_and_stop_again env env' env'' fr :
  let fr1 := after stop env fr in
  (run stop env fr).1 = Ok true
  ∧ is_running (obj fr1) = false
  ∧ (∃ d, run get_status env' fr1 = (Ok d, fr1)
          ∧ d !! "running" = Some (VBool false))
  ∧ run stop env'' fr1 = (Ok true, fr1).
Proof.
  cbn. unfold after, run. rewrite (stop_spec env 0 fr). cbn.
  destruct (is_running (obj fr)) eqn:Hrun; cbn;
    rewrite stop_spec, get_status_spec; cbn; rewrite ?Hrun.
  all: repeat split; try done.
  all: eexists; split; [done|]; apply status_literal_fields.
Qed.

(** The restart trigger never raises and leaves the monitor as it is.  The
    record it builds has the four fields, with the reading of the clock, the
    fixed reason, and the monitor's [failure_count] and [last_heartbeat].
    When the names [Path] and [json] are bound and the disk works, the
    restart log is the old one with exactly that one line at its end; when
    not, the error is logged, no record line is added, and the trigger still
    returns. *)
Lemma trigger_restart_outcome env fr :
  let out := run _trigger_restart env fr in
  let record := restart_record (clock env 0) (failure_count (obj fr))
                               (last_heartbeat (obj fr)) in
  out.1 = Ok tt
  ∧ obj out.2 = obj fr
  ∧ threads (fsys out.2) = threads (fsys fr)
  ∧ record !! "timestamp" = Some (VIso (clock env 0))
  ∧ record !! "reason" = Some (VStr "watchdog_max_failures")
  ∧ record !! "failure_count" = Some (VInt (failure_count (obj fr)))
  ∧ record !! "last_heartbeat" = Some (from_option VIso VNone (last_heartbeat (obj fr)))
  ∧ dom record = {["timestamp"; "reason"; "failure_count"; "last_heartbeat"]}
  ∧ if disk_works env then
      files (fsys out.2) = appended restart_log_path [JsonLine record] (files (fsys fr))
      ∧ content restart_log_path (files (fsys out.2))
        = content restart_log_path (files (fsys fr)) ++ [JsonLine record]
      ∧ logbook (fsys out.2)
        = logbook (fsys fr) ++ [(CRITICAL, TriggeringRestart); (INFO, RestartTriggered)]
    else
      ∃ e ls, debris ls
        ∧ content restart_log_path (files (fsys out.2))
          = content restart_log_path (files (fsys fr)) ++ ls
        ∧ logbook (fsys out.2)
          = logbook (fsys fr) ++ [(CRITICAL, TriggeringRestart);
                                  (ERROR, ErrorSavingRestartLog e);
                                  (INFO, RestartTriggered)].
Proof.
  cbn. unfold run.
  destruct (trigger_restart_spec env 0 fr) as (y & -> & Hth & Hy). cbn.
  do 3 (split; [done|]).
  destruct (restart_record_fields (clock env 0) (failure_count (obj fr))
              (last_heartbeat (obj fr))) as (? & ? & ? & ? & ?).
  do 5 (split; [done|]).
  destruct (disk_works env).
  - destruct Hy as [-> ->]. rewrite content_appended.
    repeat split. by rewrite <- (assoc (++)).
  - destruct Hy as (e & ls & Hls & Hc & ->). exists e, ls.
    repeat split; try done. by rewrite <- (assoc (++)).
Qed.

(** ** The life of a monitor *)

Lemma after_ignore {St A} (m : M St A) env s : after (ignore m) env s = after m env s.
Proof.
  unfold after, run, ignore, mbind, M_bind, mret, M_ret.
  by destruct (m env 0%nat s) as [[[a|e|] k] s'].
Qed.

Lemma pass_files env fr :
  auto_restart (obj fr) = false →
  files (fsys (after _monitor_loop_pass env fr)) = files (fsys fr).
Proof.
  intros Hauto.
  destruct (pass_spec env fr) as (res & k & y & Heq & _ & _ & Hy).
  unfold after, run. rewrite Heq. cbn. rewrite Hauto in Hy.
  destruct (escalates env (obj fr)); [by destruct Hy|done].
Qed.

Lemma act_spec a env fr :
  let fr' := after (act a) env fr in
  this fr' = this fr
  ∧ settings (obj fr') = settings (obj fr)
  ∧ match a with
    | Call MHeartbeat =>
        failure_count (obj fr') = 0%Z
        ∧ last_heartbeat (obj fr') = Some (clock env 0)
        ∧ is_running (obj fr') = is_running (obj fr)
    | Pass =>
        failure_count (obj fr') =
          (if stale env (obj fr) then failure_count (obj fr) + 1
           else failure_count (obj fr))%Z
        ∧ last_heartbeat (obj fr') = last_heartbeat (obj fr)
        ∧ is_running (obj fr') = is_running (obj fr)
    | Call m =>
        failure_count (obj fr') = failure_count (obj fr)
        ∧ last_heartbeat (obj fr') = last_heartbeat (obj fr)
        ∧ (m ≠ MStart → is_running (obj fr') = true → is_running (obj fr) = true)
    end
  ∧ (auto_restart (obj fr) = false → files (fsys fr') = files (fsys fr)).
Proof.
  destruct a as [[]|]; cbn -[after]; rewrite after_ignore.
  - unfold after, run. rewrite start_spec.
    assert (Hvoid : ∀ P : Prop, MStart ≠ MStart → P) by (by intros P []).
    destruct (enabled (obj fr)) eqn:Hen; cbn; [|repeat split; auto].
    destruct (is_running (obj fr)) eqn:Hrun; cbn; [repeat split; auto|].
    destruct (thread_start env); cbn; unfold settings; cbn; repeat split; auto.
  - unfold after, run. rewrite stop_spec. cbn.
    destruct (is_running (obj fr)) eqn:Hrun; cbn; repeat split; auto; congruence.
  - repeat split; auto.
  - repeat split; auto.
  - rewrite pass_this, pass_obj. repeat split; try by destruct (stale env (obj fr)).
    apply pass_files.
Qed.

Lemma life_cons a env tr fr : life ((a, env) :: tr) fr = life tr (after (act a) env fr).
Proof. reflexivity. Qed.

Lemma settings_interval w w' :
  settings w' = settings w → heartbeat_interval w' = heartbeat_interval w.
Proof. unfold settings. congruence. Qed.

Lemma settings_auto_restart w w' :
  settings w' = settings w → auto_restart w' = auto_restart w.
Proof. unfold settings. congruence. Qed.

Lemma in_time_not_stale env w :
  (0 ≤ heartbeat_interval w)%Z →
  in_time (heartbeat_interval w) (last_heartbeat w) (clock env 0) = true →
  stale env w = false.
Proof.
  unfold in_time, stale, timedelta_seconds. intros Hpos.
  destruct (is_running w); [|done]. destruct (last_heartbeat w) as [t|]; [|done].
  cbn. intros H%Z.leb_le. apply andb_false_intro2, Z.ltb_ge. lia.
Qed.

Lemma life_on_schedule tr : ∀ fr,
  (0 ≤ heartbeat_interval (obj fr))%Z →
  failure_count (obj fr) = 0%Z →
  on_schedule (heartbeat_interval (obj fr)) (last_heartbeat (obj fr)) tr = true →
  failure_count (obj (life tr fr)) = 0%Z.
Proof.
  induction tr as [|[a env] tr IH]; intros fr Hpos Hzero Hsched; [done|].
  rewrite life_cons.
  destruct (act_spec a env fr) as (_ & Hset & Hact & _).
  apply settings_interval in Hset.
  apply IH; rewrite ?Hset; [done| |].
  - destruct a as [[]|]; try (destruct Hact as (-> & _); done).
    destruct Hact as (-> & _). cbn in Hsched. apply andb_prop in Hsched as [Hin _].
    by rewrite (in_time_not_stale _ _ Hpos Hin).
  - destruct a as [[]|]; cbn in Hsched; destruct Hact as (_ & -> & _); try done.
    + by apply andb_prop in Hsched as [_ ?].
    + by apply andb_prop in Hsched as [_ ?].
Qed.

Lemma on_schedule_prefix interval tr : ∀ last suffix,
  on_schedule interval last (tr ++ suffix) = true → on_schedule interval last tr = true.
Proof.
  induction tr as [|[a env] tr IH]; intros last suffix H; [done|].
  destruct a as [[]|]; cbn in *; eauto.
  - apply andb_prop in H as [-> H]. eauto.
  - apply andb_prop in H as [-> H]. eauto.
Qed.

Lemma life_files tr : ∀ fr,
  auto_restart (obj fr) = false → files (fsys (life tr fr)) = files (fsys fr).
Proof.
  induction tr as [|[a env] tr IH]; intros fr Hauto; [done|].
  rewrite life_cons.
  destruct (act_spec a env fr) as (_ & Hset & _ & Hfiles).
  apply settings_auto_restart in Hset.
  rewrite IH by congruence. auto.
Qed.

(** C6: in the life of a monitor, with an interval that is not negative, in
    which consecutive heartbeats are at most [heartbeat_interval] apart and
    each pass of the loop comes before the next heartbeat is due,
    [failure_count] is 0 after every prefix of the life; a pass of the loop increments the counter exactly when the
    clock reads more than twice the interval after [last_heartbeat], and
    leaves it alone otherwise. *)
Theorem failure_count_stays_zero_on_schedule cfg r y tr pre :
  let fr0 := {| this := r; obj := __init__ cfg; fsys := y |} in
  (0 ≤ heartbeat_interval (obj fr0))%Z →
  on_schedule (heartbeat_interval (obj fr0)) None tr = true →
  pre `prefix_of` tr →
  failure_count (obj (life pre fr0)) = 0%Z
  ∧ ∀ env fr,
      failure_count (obj (after _monitor_loop_pass env fr)) =
        (if stale env (obj fr) then failure_count (obj fr) + 1
         else failure_count (obj fr))%Z.
Proof.
  intros fr0 Hpos Hsched [suffix ->]. split.
  - apply life_on_schedule; [done..|]. by eapply on_schedule_prefix.
  - intros env fr. rewrite pass_obj. by destruct (stale env (obj fr)).
Qed.

(** C10: when the pass of the loop that brings [failure_count] to
    [max_failures] runs with [auto_restart] false, the loop exits; the log
    shows the timeout and the maximum but no restart being triggered, no
    file changes, and no file changes at any time in the life of that
    monitor. *)
Theorem escalation_without_auto_restart env fr :
  auto_restart (obj fr) = false →
  escalates env (obj fr) = true →
  let out := run _monitor_loop_pass env fr in
  out.1 = Ok Exit
  ∧ failure_count (obj out.2) = (failure_count (obj fr) + 1)%Z
  ∧ (max_failures (obj fr) ≤ failure_count (obj out.2))%Z
  ∧ files (fsys out.2) = files (fsys fr)
  ∧ logbook (fsys out.2) =
      logbook (fsys fr) ++ [(WARNING, HeartbeatTimeout (failure_count (obj fr) + 1));
                            (ERROR, MaxFailuresReached)]
  ∧ ∀ tr, files (fsys (life tr fr)) = files (fsys fr).
Proof.
  intros Hauto Hesc. cbn.
  destruct (pass_spec env fr) as (res & k & y & Heq & _ & -> & Hy).
  unfold run. rewrite Heq, Hesc, Hauto in *. cbn.
  rewrite orb_true_r. destruct Hy as [-> ->].
  unfold escalates in Hesc. apply andb_prop in Hesc as [-> Hmax]. cbn.
  repeat split; try done.
  - by apply Z.leb_le.
  - intros tr. by apply life_files.
Qed.

(** ** The module *)

(** Unfolds the sequencing of the monad only. *)
Ltac unfold_seq :=
  cbv beta delta [run after ignore mbind M_bind mret M_ret try_except gets modify
                  set_instance Watchdog_new];
  cbn.

Lemma call_spec {A} r (m : M Frame A) w env k W :
  heap W !! r = Some w →
  call r m env k W =
    let '(res, k', fr) := m env k {| this := r; obj := w; fsys := sys W |} in
    (res, k', {| heap := <[r := obj fr]> (heap W);
                 _watchdog_instance := _watchdog_instance W;
                 sys := fsys fr |}).
Proof. intros H. unfold call. by rewrite H. Qed.

Lemma call_getattr {A} r (f : Watchdog → A) w env k W :
  heap W !! r = Some w → call r (getattr f) env k W = (Ok (f w), k, W).
Proof.
  intros H. rewrite (call_spec _ _ _ _ _ _ H). cbn.
  rewrite list_insert_id by done. by destruct W.
Qed.

Lemma call_get_status r w env k W :
  heap W !! r = Some w →
  call r get_status env k W =
    (Ok (status_literal (enabled w) (is_running w) (failure_count w)
           (last_heartbeat w) (max_failures w) (auto_restart w)
           (heartbeat_interval w)), k, W).
Proof.
  intros H. rewrite (call_spec _ _ _ _ _ _ H), get_status_spec. cbn.
  rewrite list_insert_id by done. by destruct W.
Qed.

Lemma running_instance_Some W r :
  running_instance W = Some r →
  _watchdog_instance W = Some r
  ∧ ∃ w, heap W !! r = Some w ∧ is_running w = true.
Proof.
  unfold running_instance. destruct (_watchdog_instance W) as [r'|]; [|done]. cbn.
  destruct (heap W !! r') as [w|] eqn:Hw; [|done]. cbn.
  destruct (is_running w) eqn:Hr; [|done]. intros [= ->]. eauto.
Qed.

Lemma start_watchdog_running cfg env k W r :
  running_instance W = Some r →
  start_watchdog cfg env k W = (Ok (Some r), k, W).
Proof.
  intros (Hinst & w & Hw & Hrun)%running_instance_Some.
  unfold start_watchdog. unfold_seq. rewrite Hinst.
  by rewrite (call_getattr _ _ _ _ _ _ Hw), Hrun.
Qed.

Lemma start_ok env k fr : ∃ b fr', start env k fr = (Ok b, k, fr').
Proof.
  rewrite start_spec.
  destruct (negb _); [by eauto|]. destruct (is_running _); [by eauto|].
  destruct (thread_start env); by eauto.
Qed.

Lemma lookup_new {A} (l : list A) x : (l ++ [x]) !! length l = Some x.
Proof. by rewrite lookup_app_r, Nat.sub_diag. Qed.

Lemma insert_new {A} (l : list A) x y : <[length l := y]> (l ++ [x]) = l ++ [y].
Proof. by rewrite insert_app_r_alt, Nat.sub_diag. Qed.

Lemma start_watchdog_fresh cfg env k W :
  wf W →
  running_instance W = None →
  let r := length (heap W) in
  ∃ b fr',
    start env k {| this := r; obj := __init__ cfg; fsys := sys W |} = (Ok b, k, fr')
    ∧ start_watchdog cfg env k W =
        (Ok (if b : bool then Some r else None), k,
         {| heap := heap W ++ [obj fr'];
            _watchdog_instance := Some r;
            sys := fsys fr' |}).
Proof.
  intros Hwf Hnone r.
  destruct (start_ok env k {| this := r; obj := __init__ cfg; fsys := sys W |})
    as (b & fr' & Hstart).
  exists b, fr'. split; [done|].
  assert (Hnew :
    (Watchdog_new cfg ≫= λ r, set_instance (Some r) ≫= λ _,
       call r start ≫= λ started : bool,
         if started then mret (Some r) else mret None) env k W =
    (Ok (if b then Some r else None), k,
     {| heap := heap W ++ [obj fr']; _watchdog_instance := Some r; sys := fsys fr' |})).
  { unfold_seq. fold r.
    erewrite call_spec by apply lookup_new. cbn. rewrite Hstart.
    unfold r. rewrite insert_new. by destruct b. }
  unfold wf, running_instance in *.
  destruct (_watchdog_instance W) as [r0|] eqn:Hinst.
  - cbn in Hnone.
    destruct (heap W !! r0) as [w0|] eqn:Hw0;
      [|by apply lookup_ge_None in Hw0; lia].
    cbn in Hnone. destruct (is_running w0) eqn:Hrun; [done|].
    unfold start_watchdog, try_except.
    unfold mbind at 1, M_bind at 1, gets. rewrite Hinst.
    unfold mbind at 1, M_bind at 1. rewrite (call_getattr _ _ _ _ _ _ Hw0), Hrun.
    by rewrite Hnew.
  - unfold start_watchdog, try_except.
    unfold mbind at 1, M_bind at 1, gets. rewrite Hinst.
    unfold mbind at 1, M_bind at 1. unfold mret at 1, M_ret at 1.
    by rewrite Hnew.
Qed.







(** *** Well-formedness of reachable worlds *)

Lemma steady_ret {A} (a : A) : steady (mret a).
Proof. done. Qed.

Lemma steady_bind {A B} (m : M World A) (f : A → M World B) :
  steady m → (∀ a, steady (f a)) → steady (m ≫= f).
Proof.
  intros Hm Hf env k W. unfold mbind, M_bind.
  specialize (Hm env k W).
  destruct (m env k W) as [[[a|e|] k'] W']; cbn in *; [|done..].
  by rewrite Hf.
Qed.

Lemma steady_try {A} (m : M World A) (h : Exn → M World A) :
  steady m → (∀ e, steady (h e)) → steady (try_except m h).
Proof.
  intros Hm Hh env k W. unfold try_except.
  specialize (Hm env k W).
  destruct (m env k W) as [[[a|e|] k'] W']; cbn in *; [done| |done].
  by rewrite Hh.
Qed.

Lemma steady_call {A} r (m : M Frame A) : steady (call r m).
Proof.
  intros env k W. unfold call.
  destruct (heap W !! r) as [w|]; [|done].
  destruct (m env k _) as [[res k'] fr]. unfold shape. cbn.
  by rewrite length_insert.
Qed.

Lemma steady_gets {A} (f : World → A) : steady (gets f).
Proof. done. Qed.

Lemma steady_on_sys f : steady (on_sys f).
Proof. done. Qed.

Lemma steady_ignore {A} (m : M World A) : steady m → steady (ignore m).
Proof. intros H. apply steady_bind; [done|]. intros. apply steady_ret. Qed.

Ltac prove_steady :=
  repeat first
    [ apply steady_ret | apply steady_call | apply steady_gets | apply steady_on_sys
    | apply steady_ignore | apply steady_bind; [|intros] | apply steady_try; [|intros]
    | match goal with |- steady (match ?x with _ => _ end) => destruct x end ].

Lemma steady_stop_watchdog : steady stop_watchdog.
Proof. unfold stop_watchdog, logger. prove_steady. Qed.

Lemma steady_get_watchdog_status : steady get_watchdog_status.
Proof. unfold get_watchdog_status. prove_steady. Qed.

Lemma steady_send_heartbeat : steady send_heartbeat.
Proof. unfold send_heartbeat. prove_steady. Qed.

Lemma steady_Thread_run t : steady (Thread_run t).
Proof. unfold Thread_run, set_thread_state. prove_steady. Qed.

Lemma after_eq {St A} (m : M St A) env s : after m env s = (m env 0%nat s).2.
Proof. unfold after, run. by destruct (m env 0%nat s) as [[? ?] ?]. Qed.

Lemma steady_after {A} (m : M World A) env W :
  steady m → shape (after m env W) = shape W.
Proof. intros H. rewrite after_eq. apply H. Qed.

Lemma wf_shape W W' : shape W' = shape W → wf W → wf W'.
Proof. unfold shape, wf. intros [= -> ->]. done. Qed.

Lemma wf_step op env W : wf W → wf (after (exec op) env W).
Proof.
  intros Hwf. destruct op as [cfg| | | |cfg|r m|t]; cbn -[after].
  - rewrite after_ignore. unfold after, run.
    destruct (running_instance W) as [r|] eqn:Hrun.
    + by rewrite (start_watchdog_running _ _ _ _ _ Hrun).
    + destruct (start_watchdog_fresh cfg env 0 W Hwf Hrun) as (b & fr' & _ & ->).
      unfold wf. cbn. rewrite length_app. cbn. lia.
  - eapply wf_shape; [|done]. apply steady_after, steady_ignore, steady_stop_watchdog.
  - eapply wf_shape; [|done].
    apply steady_after, steady_ignore, steady_get_watchdog_status.
  - eapply wf_shape; [|done]. apply steady_after, steady_ignore, steady_send_heartbeat.
  - rewrite after_ignore. unfold wf in *. cbn.
    destruct (_watchdog_instance W); [|done].
    rewrite length_app. lia.
  - eapply wf_shape; [|done]. apply steady_after, steady_call.
  - eapply wf_shape; [|done]. apply steady_after, steady_Thread_run.
Qed.

Lemma wf_execution tr : ∀ W, wf W → wf (execution tr W).
Proof.
  induction tr as [|[op env] tr IH]; intros W Hwf; [done|].
  cbn. apply IH. by apply wf_step.
Qed.

Lemma reachable_wf W : reachable W → wf W.
Proof. intros (ds & fs & tr & ->). by apply wf_execution. Qed.

Lemma get_watchdog_status_spec env k W :
  wf W →
  ∃ d, get_watchdog_status env k W = (Ok d, k, W)
    ∧ match _watchdog_instance W with
      | None => d = not_started
      | Some r =>
          ∃ w, heap W !! r = Some w
            ∧ d = status_literal (enabled w) (is_running w) (failure_count w)
                    (last_heartbeat w) (max_failures w) (auto_restart w)
                    (heartbeat_interval w)
      end.
Proof.
  unfold wf, get_watchdog_status. intros Hwf.
  unfold mbind at 1, M_bind at 1, gets.
  destruct (_watchdog_instance W) as [r|]; [|by eexists].
  destruct (heap W !! r) as [w|] eqn:Hw; [|by apply lookup_ge_None in Hw; lia].
  eexists. rewrite (call_get_status _ _ _ _ _ Hw). eauto.
Qed.

(** C9: in every reachable state [get_watchdog_status()] returns a
    dictionary, raises nothing and leaves the whole state as it is.  When no
    monitor has ever been constructed, and whenever the global is unset, the
    dictionary is the fixed one: enabled false, running false, failure_count
    0, last_heartbeat null, max_failures 3, auto_restart true,
    heartbeat_interval 30.  Otherwise it holds the current attributes of the
    global monitor. *)
Theorem get_watchdog_status_never_raises env W :
  reachable W →
  ∃ d, run get_watchdog_status env W = (Ok d, W)
    ∧ (heap W = [] → d = not_started)
    ∧ match _watchdog_instance W with
      | None =>
          d = not_started
          ∧ d !! "enabled" = Some (VBool false)
          ∧ d !! "running" = Some (VBool false)
          ∧ d !! "failure_count" = Some (VInt 0)
          ∧ d !! "last_heartbeat" = Some VNone
          ∧ d !! "max_failures" = Some (VInt 3)
          ∧ d !! "auto_restart" = Some (VBool true)
          ∧ d !! "heartbeat_interval" = Some (VInt 30)
      | Some r =>
          ∃ w, heap W !! r = Some w
            ∧ d !! "enabled" = Some (VBool (enabled w))
            ∧ d !! "running" = Some (VBool (is_running w))
            ∧ d !! "failure_count" = Some (VInt (failure_count w))
            ∧ d !! "last_heartbeat" = Some (from_option VIso VNone (last_heartbeat w))
            ∧ d !! "max_failures" = Some (VInt (max_failures w))
            ∧ d !! "auto_restart" = Some (VBool (auto_restart w))
            ∧ d !! "heartbeat_interval" = Some (VInt (heartbeat_interval w))
      end.
Proof.
  intros Hwf%reachable_wf.
  destruct (get_watchdog_status_spec env 0 W Hwf) as (d & Heq & Hd).
  exists d. unfold run. rewrite Heq. split; [done|]. split.
  - intros Hnil. unfold wf in Hwf. rewrite Hnil in Hwf.
    destruct (_watchdog_instance W); [cbn in Hwf; lia|done].
  - destruct (_watchdog_instance W) as [r|].
    + destruct Hd as (w & Hw & ->). exists w. split; [done|].
      apply status_literal_fields.
    + subst d. split; [done|]. apply status_literal_fields.
Qed.


(** C1, on the failing input: after the run [escalation_run] the thread of
    the loop has finished and [failure_count] has reached [max_failures],
    yet [is_running] is still true, and both [get_status()] and
    [get_watchdog_status()] report running = true.  The claim asks for
    false: the [break] of line 97 leaves the loop without clearing the flag
    that [stop()] and the failure path of [start()] clear. *)
Theorem escalation_leaves_is_running_set :
  let W := execution escalation_run boot in
  threads (sys W) = [{| target := 0%nat; tstate := Finished |}]
  ∧ (∃ w, heap W !! 0%nat = Some w
        ∧ failure_count w = 2%Z ∧ max_failures w = 2%Z ∧ is_running w = true)
  ∧ (∃ d, run (call 0%nat get_status) (fair_at (seconds 21)) W = (Ok d, W)
        ∧ d !! "running" = Some (VBool true))
  ∧ (∃ d, run get_watchdog_status (fair_at (seconds 21)) W = (Ok d, W)
        ∧ d !! "running" = Some (VBool true)).
Proof.
  repeat split.
  - eexists. by vm_compute.
  - eexists. split; by vm_compute.
  - eexists. split; by vm_compute.
Qed.



(** However the loop ends, or however long it goes on, [is_running] is what
    it was when the loop was entered. *)
Lemma monitor_loop_keeps_is_running env envs fr :
  is_running (obj (_monitor_loop env envs fr).2) = is_running (obj fr).
Proof.
  unfold _monitor_loop.
  change (is_running (obj fr))
    with (is_running (obj (after _monitor_loop_entry env fr))).
  generalize (after _monitor_loop_entry env fr). clear fr.
  induction envs as [|env' envs IH]; intros fr; [done|].
  cbn -[run]. pose proof (pass_keeps_is_running env' fr) as Hkeep.
  unfold after in Hkeep.
  destruct (run _monitor_loop_pass env' fr) as [[[]|e|] fr']; cbn in *; try done.
  by rewrite IH.
Qed.

(** C10 at [quiet_frame], eleven seconds after its heartbeat. *)
Lemma escalation_without_auto_restart_witness :
  auto_restart (obj quiet_frame) = false
  ∧ escalates (fair_at (seconds 11)) (obj quiet_frame) = true
  ∧ (run _monitor_loop_pass (fair_at (seconds 11)) quiet_frame).1 = Ok Exit
  ∧ files (fsys (run _monitor_loop_pass (fair_at (seconds 11)) quiet_frame).2) = ∅.
Proof.
  pose proof (escalation_without_auto_restart (fair_at (seconds 11)) quiet_frame
                eq_refl eq_refl) as H.
  cbv zeta in H. destruct H as (H1 & _ & _ & H2 & _).
  split; [reflexivity|]. split; [reflexivity|]. split; [exact H1 | exact H2].
Defined.

(** C3 on a failing input: the module imported, the disk working, the
    monitor of [stale_frame]. *)
Lemma restart_record_is_lost_when_imported_witness :
  script_mode (imported_at (seconds 20)) = false
  ∧ disk (imported_at (seconds 20)) = DiskOk
  ∧ (run _trigger_restart (imported_at (seconds 20)) stale_frame).1 = Ok tt
  ∧ files (fsys (run _trigger_restart (imported_at (seconds 20)) stale_frame).2)
    = files (fsys stale_frame).
Proof.
  pose proof (restart_record_is_lost_when_imported (imported_at (seconds 20))
                stale_frame eq_refl) as H.
  cbv zeta in H. destruct H as (H1 & _ & H2 & _).
  split; [reflexivity|]. split; [reflexivity|]. split; [exact H1 | exact H2].
Defined.



(** C9 at [boot]. *)
Lemma get_watchdog_status_never_raises_witness :
  reachable boot
  ∧ ∃ d, run get_watchdog_status (fair_at 0) boot = (Ok d, boot) ∧ d = not_started.
Proof.
  assert (Hreach : reachable boot) by (exists ∅, ∅, []; reflexivity).
  split; [exact Hreach|].
  destruct (get_watchdog_status_never_raises (fair_at 0) boot Hreach)
    as (d & Hd & Hnil & _).
  exists d. split; [exact Hd | exact (Hnil eq_refl)].
Defined.

(** C6 at [steady_life]. *)
Lemma failure_count_stays_zero_on_schedule_witness :
  on_schedule 5 None steady_life = true
  ∧ failure_count
      (obj (life steady_life
              {| this := 0%nat; obj := __init__ (Some test_config); fsys := sys boot |}))
    = 0%Z.
Proof.
  split; [reflexivity|].
  assert (Hpos : (0 ≤ 5)%Z) by (intros H; discriminate H).
  exact (proj1 (failure_count_stays_zero_on_schedule (Some test_config) 0%nat (sys boot)
                  steady_life steady_life Hpos eq_refl (ex_intro _ [] eq_refl))).
Defined.

(** * Further properties of the module *)

Arguments records : simpl never.
Arguments finished : simpl never.

(** ** The registry: [send_heartbeat] and [stop_watchdog] *)

Lemma running_instance_None W :
  wf W →
  running_instance W = None →
  _watchdog_instance W = None
  ∨ ∃ r w, _watchdog_instance W = Some r ∧ heap W !! r = Some w ∧ is_running w = false.
Proof.
  unfold wf, running_instance. intros Hwf Hnone.
  destruct (_watchdog_instance W) as [r|]; [|by left]. right. cbn in Hnone.
  destruct (heap W !! r) as [w|] eqn:Hw; [|by apply lookup_ge_None in Hw; lia].
  cbn in Hnone. destruct (is_running w) eqn:Hr; [done|]. eauto.
Qed.

Lemma call_heartbeat r w env k W :
  heap W !! r = Some w →
  call r heartbeat env k W =
    (Ok true, S k,
     {| heap := <[r := with_failure_count 0
                         (with_last_heartbeat (Some (clock env k)) w)]> (heap W);
        _watchdog_instance := _watchdog_instance W;
        sys := with_logbook (logbook (sys W) ++ [(DEBUG, HeartbeatSent)]) (sys W) |}).
Proof. intros H. by rewrite (call_spec _ _ _ _ _ _ H), heartbeat_spec. Qed.

Lemma call_stop r w env k W :
  heap W !! r = Some w →
  call r stop env k W =
    (Ok true, k,
     if is_running w
     then {| heap := <[r := with_is_running false w]> (heap W);
             _watchdog_instance := _watchdog_instance W;
             sys := with_logbook (logbook (sys W) ++ [(INFO, Stopped)]) (sys W) |}
     else W).
Proof.
  intros H. rewrite (call_spec _ _ _ _ _ _ H), stop_spec. cbn.
  destruct (is_running w); cbn; [done|].
  rewrite list_insert_id by done. by destruct W.
Qed.

Lemma send_heartbeat_running env k W r w :
  running_instance W = Some r →
  heap W !! r = Some w →
  send_heartbeat env k W = call r heartbeat env k W.
Proof.
  intros (Hinst & w' & Hw' & Hr)%running_instance_Some Hw.
  assert (w' = w) as -> by congruence.
  unfold send_heartbeat.
  unfold mbind at 1, M_bind at 1, gets. rewrite Hinst.
  unfold mbind at 1, M_bind at 1. rewrite (call_getattr _ _ _ _ _ _ Hw), Hr.
  reflexivity.
Qed.

Lemma send_heartbeat_idle env k W :
  wf W →
  running_instance W = None →
  send_heartbeat env k W = (Ok false, k, W).
Proof.
  intros Hwf Hnone.
  destruct (running_instance_None W Hwf Hnone) as [Hinst|(r & w & Hinst & Hw & Hr)].
  - unfold send_heartbeat, mbind at 1, M_bind at 1, gets. by rewrite Hinst.
  - unfold send_heartbeat. unfold mbind at 1, M_bind at 1, gets. rewrite Hinst.
    unfold mbind at 1, M_bind at 1. by rewrite (call_getattr _ _ _ _ _ _ Hw), Hr.
Qed.

Lemma stop_watchdog_running env k W r w :
  running_instance W = Some r →
  heap W !! r = Some w →
  stop_watchdog env k W =
    (Ok true, k,
     {| heap := <[r := with_is_running false w]> (heap W);
        _watchdog_instance := Some r;
        sys := with_logbook (logbook (sys W) ++ [(INFO, Stopped)]) (sys W) |}).
Proof.
  intros (Hinst & w' & Hw' & Hr)%running_instance_Some Hw.
  assert (w' = w) as -> by congruence.
  unfold stop_watchdog, try_except, mbind at 1, M_bind at 1, gets. rewrite Hinst.
  by rewrite (call_stop _ _ _ _ _ Hw), Hr, Hinst.
Qed.

Lemma stop_watchdog_idle env k W :
  wf W →
  running_instance W = None →
  stop_watchdog env k W = (Ok true, k, W).
Proof.
  intros Hwf Hnone. unfold stop_watchdog, try_except, mbind at 1, M_bind at 1, gets.
  destruct (running_instance_None W Hwf Hnone) as [Hinst|(r & w & Hinst & Hw & Hr)];
    rewrite Hinst; [done|].
  by rewrite (call_stop _ _ _ _ _ Hw), Hr.
Qed.

(** X1: in every reachable world [send_heartbeat()] returns without raising.
    When the global monitor is running it returns true, and only that
    monitor changes: its [last_heartbeat] is the clock reading and its
    [failure_count] is 0, which [get_watchdog_status()] then reports; the
    global, the threads and the files are as before.  When no monitor is
    running (none was ever started, or the global one is stopped) it returns
    false and changes nothing at all. *)
Theorem send_heartbeat_contract env env' W :
  reachable W →
  let out := run send_heartbeat env W in
  match running_instance W with
  | Some r =>
      out.1 = Ok true
      ∧ (∃ w, heap W !! r = Some w
            ∧ heap out.2 =
                <[r := with_failure_count 0
                         (with_last_heartbeat (Some (clock env 0)) w)]> (heap W))
      ∧ _watchdog_instance out.2 = Some r
      ∧ threads (sys out.2) = threads (sys W)
      ∧ files (sys out.2) = files (sys W)
      ∧ (∃ d, run get_watchdog_status env' out.2 = (Ok d, out.2)
            ∧ d !! "failure_count" = Some (VInt 0)
            ∧ d !! "last_heartbeat" = Some (VIso (clock env 0)))
  | None => out = (Ok false, W)
  end.
Proof.
  intros Hwf%reachable_wf. cbv zeta. unfold run.
  destruct (running_instance W) as [r|] eqn:Hrun;
    [|by rewrite (send_heartbeat_idle _ _ _ Hwf Hrun)].
  destruct (running_instance_Some _ _ Hrun) as (Hinst & w & Hw & Hr).
  rewrite (send_heartbeat_running _ _ _ _ _ Hrun Hw), (call_heartbeat _ _ _ _ _ Hw). cbn.
  split; [done|]. split; [by exists w|]. do 3 (split; [done|]).
  eexists. unfold get_watchdog_status, mbind at 1, M_bind at 1, gets. cbn. rewrite Hinst.
  erewrite call_get_status; [|cbn; apply list_lookup_insert_eq; by eapply lookup_lt_Some].
  split; [done|]. split; apply status_literal_fields.
Qed.

(** X2: in every reachable world [stop_watchdog()] returns true.  The global
    keeps naming the same object, no object is added or removed, threads and
    files are untouched; a running monitor has its flag cleared and nothing
    else, and with no running monitor the world is unchanged.  Afterwards no
    monitor is running: a second [stop_watchdog()] returns true and
    [send_heartbeat()] returns false, both without any effect. *)
Theorem stop_watchdog_contract env env' W :
  reachable W →
  let out := run stop_watchdog env W in
  out.1 = Ok true
  ∧ _watchdog_instance out.2 = _watchdog_instance W
  ∧ running_instance out.2 = None
  ∧ length (heap out.2) = length (heap W)
  ∧ threads (sys out.2) = threads (sys W)
  ∧ files (sys out.2) = files (sys W)
  ∧ match running_instance W with
    | Some r => ∃ w, heap W !! r = Some w
                  ∧ heap out.2 = <[r := with_is_running false w]> (heap W)
    | None => out.2 = W
    end
  ∧ run stop_watchdog env' out.2 = (Ok true, out.2)
  ∧ run send_heartbeat env' out.2 = (Ok false, out.2).
Proof.
  intros Hwf%reachable_wf. cbv zeta.
  assert (Hstopped : ∀ W1, wf W1 → running_instance W1 = None →
            run stop_watchdog env' W1 = (Ok true, W1)
            ∧ run send_heartbeat env' W1 = (Ok false, W1)).
  { intros W1 Hwf1 Hnone. unfold run.
    by rewrite (send_heartbeat_idle _ _ _ Hwf1 Hnone), (stop_watchdog_idle _ _ _ Hwf1 Hnone). }
  destruct (running_instance W) as [r|] eqn:Hrun.
  - destruct (running_instance_Some _ _ Hrun) as (Hinst & w & Hw & Hr).
    assert (Hout : run stop_watchdog env W = (Ok true,
              {| heap := <[r := with_is_running false w]> (heap W);
                 _watchdog_instance := Some r;
                 sys := with_logbook (logbook (sys W) ++ [(INFO, Stopped)]) (sys W) |})).
    { unfold run. by rewrite (stop_watchdog_running _ _ _ _ _ Hrun Hw). }
    rewrite Hout. cbn [fst snd heap _watchdog_instance sys].
    assert (Hrun' : running_instance
              {| heap := <[r := with_is_running false w]> (heap W);
                 _watchdog_instance := Some r;
                 sys := with_logbook (logbook (sys W) ++ [(INFO, Stopped)]) (sys W) |}
              = None).
    { unfold running_instance. cbn.
      by rewrite list_lookup_insert_eq by by eapply lookup_lt_Some. }
    split; [done|]. split; [done|]. split; [exact Hrun'|].
    split; [by rewrite length_insert|]. do 2 (split; [done|]).
    split; [by exists w|].
    apply Hstopped; [|done]. unfold wf. cbn. rewrite length_insert.
    by eapply lookup_lt_Some.
  - assert (Hout : run stop_watchdog env W = (Ok true, W)).
    { unfold run. by rewrite (stop_watchdog_idle _ _ _ Hwf Hrun). }
    rewrite Hout. cbn [fst snd].
    do 2 (split; [done|]). split; [done|]. do 3 (split; [done|]).
    split; [done|]. by apply Hstopped.
Qed.

(** ** Steps of a monitor thread *)

(** What [time.sleep] raises, by the size of its argument. *)
Lemma sleep_error_spec secs :
  match sleep_error secs with
  | None => (0 ≤ secs ≤ 9223372036)%Z
  | Some ValueError => (-9223372036 ≤ secs < 0)%Z
  | Some OverflowError => (secs < -9223372036 ∨ 9223372036 < secs)%Z
  | Some _ => False
  end.
Proof.
  unfold sleep_error. cbv zeta.
  destruct (Z.leb_spec (- 2 ^ 63) (secs * 1000000000)) as [H1|H1];
    destruct (Z.ltb_spec (secs * 1000000000) (2 ^ 63)) as [H2|H2]; cbn;
    [destruct (Z.ltb_spec secs 0) as [H3|H3]|..];
    change (2 ^ 63)%Z with 9223372036854775808%Z in *; lia.
Qed.

Lemma sleep_error_None secs :
  (0 ≤ secs ≤ 9223372036)%Z → sleep_error secs = None.
Proof.
  intros H. pose proof (sleep_error_spec secs) as Hs.
  destruct (sleep_error secs) as [[]|]; try done; lia.
Qed.

Lemma sleep_error_negative secs :
  (secs < 0)%Z →
  sleep_error secs
  = Some (if (secs <? -9223372036)%Z then OverflowError else ValueError).
Proof.
  intros H. pose proof (sleep_error_spec secs) as Hs.
  destruct (Z.ltb_spec secs (-9223372036)) as [Hlt|Hlt];
    destruct (sleep_error secs) as [[]|]; try done; lia.
Qed.

(** Both outcomes of the sleep that ends a pass. *)
Ltac on_sleep tac :=
  match goal with
  | |- context [sleep_error ?i] =>
      let Hs := fresh "Hs" in
      destruct (sleep_error i) eqn:Hs; cbn; rewrite ?Hs; cbn; tac
  end.

Lemma thread_run_idle t env k W :
  match threads (sys W) !! t with
  | Some th => tstate th = Initial ∨ tstate th = Finished
  | None => True
  end →
  Thread_run t env k W = (Ok tt, k, W).
Proof.
  unfold Thread_run, mbind at 1, M_bind at 1, gets.
  destruct (threads (sys W) !! t) as [th|]; [|done].
  by intros [-> | ->].
Qed.

Lemma thread_run_ready t th w env k W :
  threads (sys W) !! t = Some th →
  tstate th = Ready →
  heap W !! target th = Some w →
  Thread_run t env k W =
    (Ok tt, k,
     {| heap := heap W;
        _watchdog_instance := _watchdog_instance W;
        sys := with_threads (alter (set_tstate Looping) t (threads (sys W)))
                 (with_logbook (logbook (sys W) ++ [(INFO, LoopStarted)]) (sys W)) |}).
Proof.
  intros Ht Hst Hw. unfold Thread_run, mbind at 1, M_bind at 1, gets.
  rewrite Ht, Hst. unfold mbind, M_bind.
  rewrite (call_spec _ _ _ _ _ _ Hw). cbn.
  by rewrite list_insert_id.
Qed.

Lemma pass_no_fault env k fr : (_monitor_loop_pass env k fr).1.1 ≠ Fault.
Proof.
  unfold _monitor_loop_pass, _trigger_restart, _save_restart_log. unfold_m.
  destruct (is_running (obj fr)); cbn; [|done].
  destruct (last_heartbeat (obj fr)); cbn.
  - destruct (timedelta_fits _); cbn.
    + destruct (_ <? _ - _)%Z; cbn.
      * destruct (_ <=? _)%Z; cbn.
        -- destruct (auto_restart (obj fr)); cbn; [|done].
           destruct (script_mode env); cbn; [|done].
           destruct (disk env) as [| | |? []]; cbn; done.
        -- on_sleep done.
      * on_sleep done.
    + on_sleep done.
  - on_sleep done.
Qed.

Lemma thread_run_looping t th w env W :
  threads (sys W) !! t = Some th →
  tstate th = Looping →
  heap W !! target th = Some w →
  let out := run _monitor_loop_pass env
               {| this := target th; obj := w; fsys := sys W |} in
  run (Thread_run t) env W =
    (Ok tt,
     {| heap := <[target th := obj out.2]> (heap W);
        _watchdog_instance := _watchdog_instance W;
        sys := match out.1 with
               | Ok Again => fsys out.2
               | _ => finish t (fsys out.2)
               end |}).
Proof.
  intros Ht Hst Hw. cbn zeta. unfold run, Thread_run, mbind at 1, M_bind at 1, gets.
  rewrite Ht, Hst. unfold try_except, mbind, M_bind.
  rewrite (call_spec _ _ _ _ _ _ Hw).
  pose proof (pass_no_fault env 0 {| this := target th; obj := w; fsys := sys W |}) as Hnf.
  destruct (_monitor_loop_pass env 0 _) as [[[[]|e|] k] fr']; cbn in *; done.
Qed.

Lemma thread_run_fault t th env k W :
  threads (sys W) !! t = Some th →
  heap W !! target th = None →
  (Thread_run t env k W).2 = W.
Proof.
  intros Ht Hw. unfold Thread_run, mbind at 1, M_bind at 1, gets. rewrite Ht.
  destruct (tstate th); try done.
  - unfold mbind, M_bind, call. by rewrite Hw.
  - unfold try_except, mbind, M_bind, call. by rewrite Hw.
Qed.

Lemma with_failure_count_id w : with_failure_count (failure_count w) w = w.
Proof. by destruct w. Qed.

Lemma pass_stopped env k fr :
  is_running (obj fr) = false → _monitor_loop_pass env k fr = (Ok Exit, k, fr).
Proof. intros Hr. unfold _monitor_loop_pass. unfold_m. by rewrite Hr. Qed.

(** X3: once [is_running] is false, the next pass of the loop is its last:
    the thread ends, and the step changes nothing else — no object, no
    file, not the log output — however long ago the last heartbeat was. *)
Theorem stopped_loop_exits_at_next_pass t th w env W :
  threads (sys W) !! t = Some th →
  tstate th = Looping →
  heap W !! target th = Some w →
  is_running w = false →
  run (Thread_run t) env W =
    (Ok tt,
     {| heap := heap W;
        _watchdog_instance := _watchdog_instance W;
        sys := with_threads (alter (set_tstate Finished) t (threads (sys W))) (sys W) |}).
Proof.
  intros Ht Hst Hw Hr. rewrite (thread_run_looping _ _ _ _ _ Ht Hst Hw).
  unfold run. rewrite pass_stopped by done. cbn.
  by rewrite list_insert_id.
Qed.

(** X4: a step of a monitor thread never assigns the global and never adds
    or removes an object; each object is afterwards what it was except for
    [failure_count], which is unchanged or, for the monitor of that thread
    when the thread is in its loop and the heartbeat is stale, one more. *)
Theorem thread_step_touches_only_failure_count t env W :
  let W' := after (Thread_run t) env W in
  _watchdog_instance W' = _watchdog_instance W
  ∧ length (heap W') = length (heap W)
  ∧ ∀ r w, heap W !! r = Some w →
      ∃ n, heap W' !! r = Some (with_failure_count n w)
           ∧ (n = failure_count w
              ∨ n = (failure_count w + 1)%Z
                ∧ stale env w = true
                ∧ ∃ th, threads (sys W) !! t = Some th
                        ∧ target th = r ∧ tstate th = Looping).
Proof.
  cbn zeta.
  assert (Hsame : ∀ W', heap W' = heap W → _watchdog_instance W' = _watchdog_instance W →
    _watchdog_instance W' = _watchdog_instance W
    ∧ length (heap W') = length (heap W)
    ∧ ∀ r w, heap W !! r = Some w →
        ∃ n, heap W' !! r = Some (with_failure_count n w)
             ∧ (n = failure_count w
                ∨ n = (failure_count w + 1)%Z
                  ∧ stale env w = true
                  ∧ ∃ th, threads (sys W) !! t = Some th
                          ∧ target th = r ∧ tstate th = Looping)).
  { intros W' -> ->. do 2 (split; [done|]). intros r w Hw.
    exists (failure_count w). rewrite with_failure_count_id. auto. }
  destruct (threads (sys W) !! t) as [th|] eqn:Ht;
    [|by rewrite after_eq, thread_run_idle; [apply Hsame|rewrite Ht]].
  destruct (heap W !! target th) as [w|] eqn:Hw;
    [|by rewrite after_eq, (thread_run_fault _ _ _ _ _ Ht Hw); apply Hsame].
  destruct (tstate th) eqn:Hst.
  - rewrite after_eq, thread_run_idle; [by apply Hsame|]. rewrite Ht. auto.
  - rewrite after_eq, (thread_run_ready _ _ _ _ _ _ Ht Hst Hw). by apply Hsame.
  - unfold after. rewrite (thread_run_looping _ _ _ _ _ Ht Hst Hw). cbn.
    set (fr := {| this := target th; obj := w; fsys := sys W |}).
    fold (after _monitor_loop_pass env fr). rewrite (pass_obj env fr). cbn.
    split; [done|]. split; [by rewrite length_insert|].
    intros r w0 Hw0. destruct (decide (target th = r)) as [<-|Hne].
    + pose proof (eq_trans (eq_sym Hw0) Hw) as [= ->].
      rewrite list_lookup_insert_eq by by eapply lookup_lt_Some.
      destruct (stale env w) eqn:Hstale.
      * exists (failure_count w + 1)%Z. split; [done|]. right. eauto 10.
      * exists (failure_count w). rewrite with_failure_count_id. auto.
    + rewrite list_lookup_insert_ne by done.
      exists (failure_count w0). rewrite with_failure_count_id. auto.
  - rewrite after_eq, thread_run_idle; [by apply Hsame|]. rewrite Ht. auto.
Qed.

(** X5: with a negative [heartbeat_interval] the first pass of a running
    loop ends the thread: [time.sleep] raises (ValueError, or OverflowError
    when the interval is below -9223372036 seconds and does not fit the
    nanoseconds of the sleep), the handler of line 101 calls it again, and
    that exception leaves [_monitor_loop], unless the pass escalates and
    leaves by the [break].  The monitor still has [is_running] set
    afterwards. *)
Theorem negative_interval_ends_the_loop t th w env W :
  threads (sys W) !! t = Some th →
  tstate th = Looping →
  heap W !! target th = Some w →
  is_running w = true →
  (heartbeat_interval w < 0)%Z →
  let W' := after (Thread_run t) env W in
  threads (sys W') = alter (set_tstate Finished) t (threads (sys W))
  ∧ (∃ w', heap W' !! target th = Some w' ∧ is_running w' = true)
  ∧ (escalates env w = false →
     (run _monitor_loop_pass env {| this := target th; obj := w; fsys := sys W |}).1
     = Raise (if (heartbeat_interval w <? -9223372036)%Z
              then OverflowError else ValueError)).
Proof.
  intros Ht Hst Hw Hr Hneg. cbn zeta.
  unfold after. rewrite (thread_run_looping _ _ _ _ _ Ht Hst Hw). cbn.
  set (fr := {| this := target th; obj := w; fsys := sys W |}).
  rewrite (pass_result env fr). cbn. rewrite Hr. cbn.
  fold (after _monitor_loop_pass env fr).
  rewrite (sleep_error_negative _ Hneg). split.
  { destruct (escalates env w); cbn; by rewrite (pass_threads env fr). }
  split.
  { exists (obj (after _monitor_loop_pass env fr)).
    split; [apply list_lookup_insert_eq; by eapply lookup_lt_Some|].
    by rewrite (pass_keeps_is_running env fr). }
  by intros ->.
Qed.

(** ** Relations that every computation keeps *)

Section always.
Context {St : Type} (R : relation St) `{!PreOrder R}.

Lemma always_ret {A} (a : A) : always R (mret a).
Proof. intros env k s. cbn. reflexivity. Qed.

Lemma always_gets {A} (f : St → A) : always R (gets f).
Proof. intros env k s. cbn. reflexivity. Qed.

Lemma always_modify (f : St → St) : (∀ s, R s (f s)) → always R (modify f).
Proof. intros H env k s. apply H. Qed.

Lemma always_bind {A B} (m : M St A) (f : A → M St B) :
  always R m → (∀ a, always R (f a)) → always R (m ≫= f).
Proof.
  intros Hm Hf env k s. unfold mbind, M_bind.
  specialize (Hm env k s).
  destruct (m env k s) as [[[a|e|] k'] s']; cbn in *; [|done..].
  etrans; [done|]. apply Hf.
Qed.

Lemma always_try {A} (m : M St A) (h : Exn → M St A) :
  always R m → (∀ e, always R (h e)) → always R (try_except m h).
Proof.
  intros Hm Hh env k s. unfold try_except.
  specialize (Hm env k s).
  destruct (m env k s) as [[[a|e|] k'] s']; cbn in *; [done| |done].
  etrans; [done|]. apply Hh.
Qed.

Lemma always_ignore {A} (m : M St A) : always R m → always R (ignore m).
Proof. intros H. apply always_bind; [done|]. intros. apply always_ret. Qed.

Lemma always_after {A} (m : M St A) env s : always R m → R s (after m env s).
Proof. intros H. rewrite after_eq. apply H. Qed.
End always.

Lemma grown_preorder : PreOrder grown.
Proof.
  split.
  - by left.
  - intros a b c [->|[ls ->]] [->|[ls' ->]]; unfold grown; eauto.
    right. exists (ls ++ ls'). apply appended_appended.
Qed.

#[global] Existing Instance grown_preorder.

Lemma fquiet_preorder : PreOrder fquiet.
Proof.
  split.
  - done.
  - intros a b c (H1 & H2 & H3 & H4) (H1' & H2' & H3' & H4'). unfold fquiet.
    split; [congruence|]. split; [by etrans|]. split; [congruence|]. auto.
Qed.

#[global] Existing Instance fquiet_preorder.

Lemma quiet_preorder : PreOrder quiet.
Proof.
  split.
  - intros W. unfold quiet. split; [eauto|]. done.
  - intros a b c (H1 & H2 & H3 & H4 & H5) (H1' & H2' & H3' & H4' & H5'). unfold quiet.
    split.
    { intros r w Hw. destruct (H1 r w Hw) as (w' & Hw' & Hs).
      destruct (H1' r w' Hw') as (w'' & Hw'' & Hs'). exists w''. split; [done|congruence]. }
    split; [auto|]. split; [by etrans|]. split; [congruence|]. auto.
Qed.

#[global] Existing Instance quiet_preorder.

Lemma evolves_preorder : PreOrder evolves.
Proof.
  split.
  - intros W. unfold evolves. split; [eauto|]. split; [done|]. split; [eauto|].
    split; [done|]. split; [done|]. lia.
  - intros a b c (H1 & H2 & H3 & H4 & H5 & H6) (H1' & H2' & H3' & H4' & H5' & H6').
    unfold evolves. split.
    { intros r w Hw. destruct (H1 r w Hw) as (w' & Hw' & Hs).
      destruct (H1' r w' Hw') as (w'' & Hw'' & Hs'). exists w''. split; [done|congruence]. }
    split; [auto|]. split.
    { intros t th Ht. destruct (H3 t th Ht) as (th' & Ht' & Htg & Hrk).
      destruct (H3' t th' Ht') as (th'' & Ht'' & Htg' & Hrk'). exists th''.
      split; [done|]. split; [congruence|lia]. }
    split; [by etrans|]. split; [auto|lia].
Qed.

#[global] Existing Instance evolves_preorder.

(** *** The methods and the functions of the module *)

Lemma sound_init cfg : sound (__init__ cfg).
Proof. by repeat split. Qed.

Lemma fquiet_getattr {A} (f : Watchdog → A) : always fquiet (getattr f).
Proof. intros env k fr. reflexivity. Qed.

Lemma fquiet_get_status : always fquiet get_status.
Proof. intros env k fr. rewrite get_status_spec. reflexivity. Qed.

Lemma fquiet_heartbeat : always fquiet heartbeat.
Proof.
  intros env k fr. rewrite heartbeat_spec. unfold fquiet, sound. cbn.
  do 3 (split; [done|]). intros (_ & _ & Hdis). by do 2 (split; [done|]).
Qed.

Lemma fquiet_stop : always fquiet stop.
Proof.
  intros env k fr. rewrite stop_spec. cbn.
  destruct (is_running (obj fr)) eqn:Hr; [|reflexivity]. unfold fquiet, sound. cbn.
  do 3 (split; [done|]). intros (H0 & Hnone & Hdis). do 2 (split; [done|]).
  intros Hen. by destruct (Hdis Hen).
Qed.

Lemma fquiet_start : always fquiet start.
Proof.
  intros env k fr. rewrite start_spec.
  destruct (enabled (obj fr)) eqn:Hen; cbn; [|by unfold fquiet].
  destruct (is_running (obj fr)); cbn; [by unfold fquiet|].
  destruct (thread_start env); unfold fquiet, sound; cbn;
    (split; [done|]); (split; [by eexists|]); (split; [done|]);
    intros (H0 & Hnone & _); do 2 (split; [done|]); by rewrite Hen.
Qed.

Lemma fquiet_entry : always fquiet _monitor_loop_entry.
Proof. intros env k fr. by unfold fquiet. Qed.

Lemma fquiet_method m : always fquiet (method m).
Proof.
  destruct m; cbn; apply always_ignore; try apply _;
    auto using fquiet_start, fquiet_stop, fquiet_heartbeat, fquiet_get_status.
Qed.

Lemma quiet_call {A} r (m : M Frame A) : always fquiet m → always quiet (call r m).
Proof.
  intros Hm env k W. unfold call.
  destruct (heap W !! r) as [w|] eqn:Hw; [|reflexivity].
  specialize (Hm env k {| this := r; obj := w; fsys := sys W |}).
  destruct (m env k _) as [[res k'] fr']. cbn in *.
  destruct Hm as (Hset & Hth & Hfiles & Hsound). unfold quiet. cbn.
  split.
  { intros r' w' Hw'. destruct (decide (r = r')) as [<-|Hne].
    - exists (obj fr'). rewrite list_lookup_insert_eq by by eapply lookup_lt_Some.
      split; [done|]. by pose proof (eq_trans (eq_sym Hw') Hw) as [= ->].
    - exists w'. by rewrite list_lookup_insert_ne. }
  do 3 (split; [done|]).
  intros Hall. apply Forall_insert; [done|].
  apply Hsound. by eapply Forall_lookup_1.
Qed.

Lemma quiet_logger lvl msg : always quiet (logger lvl msg).
Proof. intros env k W. unfold quiet. cbn. split; [eauto|]. done. Qed.

Lemma quiet_new cfg : always quiet (Watchdog_new cfg).
Proof.
  intros env k W. unfold quiet. cbn. split.
  { intros r w Hw. exists w. split; [|done]. by apply lookup_app_l_Some. }
  do 3 (split; [done|]).
  intros Hall. apply Forall_app. split; [done|].
  apply Forall_singleton, sound_init.
Qed.

Lemma quiet_set_instance r : always quiet (set_instance (Some r)).
Proof. intros env k W. unfold quiet. cbn. split; [eauto|]. by split. Qed.

Ltac prove_quiet :=
  repeat first
    [ apply always_ret; apply _
    | apply always_gets; apply _
    | apply quiet_call
    | apply quiet_logger
    | apply quiet_new
    | apply quiet_set_instance
    | apply fquiet_getattr | apply fquiet_start | apply fquiet_stop
    | apply fquiet_heartbeat | apply fquiet_get_status | apply fquiet_method
    | apply always_ignore; [apply _|]
    | apply always_bind; [apply _| |intros]
    | apply always_try; [apply _| |intros]
    | match goal with |- always _ (match ?x with _ => _ end) => destruct x end
    | match goal with |- always _ (if ?x then _ else _) => destruct x end ].

Lemma quiet_start_watchdog cfg : always quiet (start_watchdog cfg).
Proof. unfold start_watchdog. prove_quiet. Qed.

Lemma quiet_stop_watchdog : always quiet stop_watchdog.
Proof. unfold stop_watchdog. prove_quiet. Qed.

Lemma quiet_get_watchdog_status : always quiet get_watchdog_status.
Proof. unfold get_watchdog_status. prove_quiet. Qed.

Lemma quiet_send_heartbeat : always quiet send_heartbeat.
Proof. unfold send_heartbeat. prove_quiet. Qed.

Lemma quiet_exec op env W :
  (∀ t, op ≠ OpThread t) → quiet W (after (exec op) env W).
Proof.
  intros Hop. destruct op as [cfg| | | |cfg|r m|t]; cbn -[after];
    [..|by destruct (Hop t)]; apply always_after; try apply _.
  - apply always_ignore, quiet_start_watchdog; apply _.
  - apply always_ignore, quiet_stop_watchdog; apply _.
  - apply always_ignore, quiet_get_watchdog_status; apply _.
  - apply always_ignore, quiet_send_heartbeat; apply _.
  - apply always_ignore, quiet_new; apply _.
  - apply quiet_call, fquiet_method.
Qed.

(** *** The steps of the threads *)

Lemma records_app ls ls' : records (ls ++ ls') = records ls + records ls'.
Proof. unfold records. by rewrite omap_app, length_app. Qed.

Lemma records_debris ls : debris ls → records ls = 0.
Proof. by intros [-> | ->]. Qed.

Lemma records_record d : records [JsonLine d] = 1.
Proof. reflexivity. Qed.

Lemma finished_app ths ths' : finished (ths ++ ths') = finished ths + finished ths'.
Proof. unfold finished. by rewrite omap_app, length_app. Qed.

Lemma finished_prefix ths ths' : ths `prefix_of` ths' → finished ths ≤ finished ths'.
Proof. intros [k ->]. rewrite finished_app. lia. Qed.

Lemma finished_le_entered ths : finished ths ≤ entered ths.
Proof.
  unfold finished, entered.
  induction ths as [|th ths IH]; cbn; [done|].
  destruct (tstate th); cbn; lia.
Qed.

Lemma finished_finish t ths :
  finished ths ≤ finished (alter (set_tstate Finished) t ths)
  ∧ ∀ th, ths !! t = Some th → tstate th ≠ Finished →
          finished (alter (set_tstate Finished) t ths) = S (finished ths).
Proof.
  revert t. induction ths as [|x ths IH]; intros t; [by split|].
  destruct t as [|t]; cbn.
  - unfold finished. cbn. destruct (tstate x) eqn:Hx; cbn; split; try lia;
      intros th [= <-] Hne; done.
  - destruct (IH t) as [Hle Heq]. unfold finished in *. cbn.
    destruct (tstate x); cbn; split; try lia; intros th Hth Hne;
      by rewrite (Heq th).
Qed.

Lemma finished_advance t ths th :
  ths !! t = Some th → tstate th = Ready →
  finished (alter (set_tstate Looping) t ths) = finished ths.
Proof.
  revert t. induction ths as [|x ths IH]; intros t Ht Hst; [done|].
  destruct t as [|t]; cbn in *.
  - injection Ht as ->. unfold finished. cbn. by rewrite Hst.
  - unfold finished in *. cbn. destruct (tstate x); cbn; by rewrite ?(IH t).
Qed.

Lemma threads_alter t st (ths : list Thread) t' th :
  ths !! t' = Some th →
  (∀ th0, ths !! t = Some th0 → rank (tstate th0) ≤ rank st) →
  ∃ th', alter (set_tstate st) t ths !! t' = Some th'
         ∧ target th' = target th
         ∧ rank (tstate th) ≤ rank (tstate th').
Proof.
  intros Ht' Hrank. destruct (decide (t = t')) as [->|Hne].
  - exists (set_tstate st th). rewrite list_lookup_alter_eq, Ht'. cbn. auto.
  - exists th. by rewrite list_lookup_alter_ne.
Qed.

Lemma rank_le_finished st : rank st ≤ rank Finished.
Proof. destruct st; cbn; lia. Qed.

Lemma grown_content fs fs' :
  grown fs fs' →
  content restart_log_path fs `prefix_of` content restart_log_path fs'
  ∧ ∀ p, p ≠ restart_log_path → content p fs' = content p fs.
Proof.
  intros [->|[ls ->]]; [done|]. split.
  - rewrite content_appended. by eexists.
  - intros p Hp. by rewrite content_appended_ne.
Qed.

Lemma quiet_evolves W W' : quiet W W' → evolves W W'.
Proof.
  intros (H1 & H2 & H3 & H4 & H5). unfold evolves.
  do 2 (split; [done|]). split.
  { intros t th Ht. exists th. split; [|done].
    destruct H3 as [k ->]. by apply lookup_app_l_Some. }
  split; [by left|]. split; [done|].
  rewrite H4. pose proof (finished_prefix _ _ H3). lia.
Qed.

Lemma trigger_restart_grown env k fr :
  grown (files (fsys fr)) (files (fsys (_trigger_restart env k fr).2)).
Proof.
  unfold _trigger_restart, _save_restart_log. unfold_m.
  destruct (script_mode env); cbn; [|by left].
  destruct (disk env) as [| | |e torn]; cbn; try by left.
  - right. rewrite log_file_is_restart_log_path, appended_appended. by eexists.
  - destruct torn; cbn; right; rewrite log_file_is_restart_log_path.
    + rewrite appended_appended. by eexists.
    + by eexists.
Qed.

Lemma pass_grown env fr :
  grown (files (fsys fr)) (files (fsys (after _monitor_loop_pass env fr))).
Proof.
  rewrite after_eq. unfold _monitor_loop_pass. unfold_m.
  destruct (is_running (obj fr)); cbn; [|by left].
  destruct (last_heartbeat (obj fr)) as [t|]; cbn.
  - destruct (timedelta_fits _); cbn.
    + destruct (_ <? _ - _)%Z; cbn.
      * destruct (_ <=? _)%Z; cbn.
        -- destruct (auto_restart (obj fr)); cbn; [|by left].
           match goal with
           | |- context [_trigger_restart env ?k' ?fr'] =>
               pose proof (trigger_restart_grown env k' fr') as Hg;
               destruct (trigger_restart_spec env k' fr') as (y' & Ht & _)
           end.
           rewrite Ht in *. exact Hg.
        -- on_sleep ltac:(by left).
      * on_sleep ltac:(by left).
    + on_sleep ltac:(by left).
  - on_sleep ltac:(by left).
Qed.

Lemma sound_pass env fr :
  sound (obj fr) → sound (obj (after _monitor_loop_pass env fr)).
Proof.
  rewrite pass_obj. intros (H0 & Hnone & Hdis).
  destruct (stale env (obj fr)) eqn:Hstale; [|done].
  unfold stale in Hstale. apply andb_prop in Hstale as [_ Hstale].
  destruct (last_heartbeat (obj fr)) as [t|] eqn:Hlast; [|done].
  split; cbn; [lia|]. split; [by rewrite Hlast|done].
Qed.

Lemma pass_records env fr :
  let out := run _monitor_loop_pass env fr in
  let before := records (content restart_log_path (files (fsys fr))) in
  let now := records (content restart_log_path (files (fsys out.2))) in
  if escalates env (obj fr)
  then out.1 = Ok Exit ∧ before ≤ now ≤ S before
  else now = before.
Proof.
  cbn zeta. destruct (pass_spec env fr) as (res & k & y & Heq & _ & -> & Hy).
  unfold run. rewrite Heq. cbn.
  destruct (escalates env (obj fr)); [|by rewrite Hy].
  rewrite orb_true_r. split; [done|].
  destruct (auto_restart (obj fr)); [|destruct Hy as [-> _]; lia].
  destruct (disk_works env).
  - destruct Hy as [-> _]. rewrite content_appended, records_app, records_record. lia.
  - destruct Hy as (e & ls & Hls & -> & _). rewrite records_app, (records_debris ls Hls). lia.
Qed.

Lemma evolves_Thread_run t env W : evolves W (after (Thread_run t) env W).
Proof.
  destruct (threads (sys W) !! t) as [th|] eqn:Ht;
    [|by rewrite after_eq, thread_run_idle; [reflexivity|rewrite Ht]].
  destruct (heap W !! target th) as [w|] eqn:Hw;
    [|by rewrite after_eq, (thread_run_fault _ _ _ _ _ Ht Hw)].
  destruct (tstate th) eqn:Hst.
  - rewrite after_eq, thread_run_idle; [reflexivity|]. rewrite Ht. auto.
  - (* the thread enters the loop *)
    rewrite after_eq, (thread_run_ready _ _ _ _ _ _ Ht Hst Hw). unfold evolves. cbn.
    unfold tid, ref in *.
    split; [eauto|]. split; [done|]. split.
    { intros t' th' Ht'. apply threads_alter; [done|].
      intros th0 Hth0. pose proof (eq_trans (eq_sym Hth0) Ht) as [= ->].
      rewrite Hst. cbn. lia. }
    split; [by left|]. split; [done|].
    rewrite (finished_advance _ _ _ Ht Hst). lia.
  - (* the thread makes a pass *)
    unfold after. rewrite (thread_run_looping _ _ _ _ _ Ht Hst Hw). cbn.
    unfold finish, tid, ref in *.
    set (fr := {| this := target th; obj := w; fsys := sys W |}).
    fold (after _monitor_loop_pass env fr).
    pose proof (pass_obj env fr) as Hobj.
    pose proof (pass_threads env fr) as Hths.
    pose proof (pass_grown env fr) as Hgrown.
    pose proof (sound_pass env fr) as Hsound.
    pose proof (pass_records env fr) as Hrec. cbn zeta in Hrec.
    fold (after _monitor_loop_pass env fr) in Hrec.
    set (fr' := after _monitor_loop_pass env fr) in *.
    assert (Hsys : ∀ y, y = fsys fr' ∨ y = finish t (fsys fr') →
              (∀ t0 th0, threads (sys W) !! t0 = Some th0 →
                 ∃ th', threads y !! t0 = Some th' ∧ target th' = target th0
                        ∧ rank (tstate th0) ≤ rank (tstate th'))
              ∧ grown (files (sys W)) (files y)).
    { unfold finish, tid. intros y [-> | ->]; cbn; rewrite Hths; (split; [|done]).
      - intros t0 th0 Ht0. exists th0. auto.
      - intros t0 th0 Ht0. apply threads_alter; [done|].
        intros. apply rank_le_finished. }
    assert (Hheap :
      (∀ r w0, heap W !! r = Some w0 →
         ∃ w', <[target th := obj fr']> (heap W) !! r = Some w'
               ∧ settings w' = settings w0)
      ∧ (Forall sound (heap W) → Forall sound (<[target th := obj fr']> (heap W)))).
    { split.
      - intros r w0 Hw0. destruct (decide (target th = r)) as [<-|Hne].
        + exists (obj fr'). rewrite list_lookup_insert_eq by by eapply lookup_lt_Some.
          split; [done|]. pose proof (eq_trans (eq_sym Hw0) Hw) as [= ->].
          rewrite Hobj. cbn.
          by destruct (stale env w).
        + exists w0. by rewrite list_lookup_insert_ne.
      - intros Hall. apply Forall_insert; [done|]. apply Hsound.
        by eapply Forall_lookup_1. }
    destruct Hheap as [Hobjs Hall].
    unfold evolves. cbn. split; [done|]. split; [done|].
    destruct (finished_finish t (threads (sys W))) as [Hfin_le Hfin_eq].
    assert (Hfin_S : finished (alter (set_tstate Finished) t (threads (sys W)))
                     = S (finished (threads (sys W)))).
    { apply (Hfin_eq th); [done|]. rewrite Hst. discriminate. }
    clear Hfin_eq. change (obj fr) with w in Hrec.
    change (fsys fr) with (sys W) in *.
    destruct ((run _monitor_loop_pass env fr).1) as [[]|e|] eqn:Hres.
    + destruct (Hsys (fsys fr') (or_introl eq_refl)) as [? ?].
      do 3 (split; [done|]). rewrite Hths.
      destruct (escalates env w); [by destruct Hrec|]. rewrite Hrec. lia.
    + destruct (Hsys (finish t (fsys fr')) (or_intror eq_refl)) as [? ?].
      do 3 (split; [done|]). cbn. rewrite Hths.
      destruct (escalates env w); [|rewrite Hrec]; lia.
    + destruct (Hsys (finish t (fsys fr')) (or_intror eq_refl)) as [? ?].
      do 3 (split; [done|]). cbn. rewrite Hths.
      destruct (escalates env w); [by destruct Hrec|]. rewrite Hrec. lia.
    + destruct (Hsys (finish t (fsys fr')) (or_intror eq_refl)) as [? ?].
      do 3 (split; [done|]). cbn. rewrite Hths.
      destruct (escalates env w); [by destruct Hrec|]. rewrite Hrec. lia.
  - rewrite after_eq, thread_run_idle; [reflexivity|]. rewrite Ht. auto.
Qed.

Lemma evolves_exec op env W : evolves W (after (exec op) env W).
Proof.
  destruct op as [cfg| | | |cfg|r m|t]; cbn -[after];
    try apply evolves_Thread_run; apply quiet_evolves, always_after; try apply _.
  - apply always_ignore, quiet_start_watchdog; apply _.
  - apply always_ignore, quiet_stop_watchdog; apply _.
  - apply always_ignore, quiet_get_watchdog_status; apply _.
  - apply always_ignore, quiet_send_heartbeat; apply _.
  - apply always_ignore, quiet_new; apply _.
  - apply quiet_call, fquiet_method.
Qed.

Lemma evolves_execution tr : ∀ W, evolves W (execution tr W).
Proof.
  induction tr as [|[op env] tr IH]; intros W; [reflexivity|].
  cbn. etrans; [apply evolves_exec|apply IH].
Qed.

(** ** Invariants of the executions *)

(** X6: whatever the program does, an object on the heap stays there and
    keeps the settings [__init__] gave it ([enabled], [heartbeat_interval],
    [max_failures], [auto_restart]), and the global, once set, is never
    cleared. *)
Theorem monitors_keep_their_settings tr W r w :
  heap W !! r = Some w →
  let W' := execution tr W in
  (∃ w', heap W' !! r = Some w'
         ∧ enabled w' = enabled w
         ∧ heartbeat_interval w' = heartbeat_interval w
         ∧ max_failures w' = max_failures w
         ∧ auto_restart w' = auto_restart w)
  ∧ (is_Some (_watchdog_instance W) → is_Some (_watchdog_instance W')).
Proof.
  intros Hw. destruct (evolves_execution tr W) as (Hobj & Hinst & _).
  split; [|done]. destruct (Hobj r w Hw) as (w' & Hw' & Hset).
  exists w'. split; [done|]. unfold settings in Hset. by injection Hset.
Qed.

(** X7: a thread is never removed, never changes its monitor, and its state
    only advances (created, started, in the loop, ended): a thread that
    has ended is never run again. *)
Theorem thread_states_only_advance tr W t th :
  threads (sys W) !! t = Some th →
  ∃ th', threads (sys (execution tr W)) !! t = Some th'
         ∧ target th' = target th
         ∧ rank (tstate th) ≤ rank (tstate th').
Proof. intros Ht. destruct (evolves_execution tr W) as (_ & _ & Hth & _). eauto. Qed.

(** X8: whatever the program does, the lines the restart log had are still
    its first lines afterwards, and no other file is created or changed. *)
Theorem restart_log_is_append_only tr W p :
  let fs := files (sys W) in
  let fs' := files (sys (execution tr W)) in
  content restart_log_path fs `prefix_of` content restart_log_path fs'
  ∧ (p ≠ restart_log_path → fs' !! p = fs !! p).
Proof.
  cbn zeta. destruct (evolves_execution tr W) as (_ & _ & _ & Hg & _).
  split; [by apply grown_content|].
  intros Hp. destruct Hg as [->|[ls ->]]; [done|].
  unfold appended. by rewrite lookup_insert_ne.
Qed.

(** X9: in every reachable world the [failure_count] of every monitor is at
    least 0, and it is 0 for a monitor that has never received a
    heartbeat. *)
Theorem failure_count_is_sound W r w :
  reachable W →
  heap W !! r = Some w →
  (0 ≤ failure_count w)%Z
  ∧ (last_heartbeat w = None → failure_count w = 0%Z).
Proof.
  intros (ds & fs & tr & ->) Hw.
  destruct (evolves_execution tr (loaded ds fs)) as (_ & _ & _ & _ & Hsound & _).
  assert (Hw' : sound w).
  { eapply (Forall_lookup_1 sound); [|done]. by apply Hsound. }
  destruct Hw' as (H0 & Hnone & _). by split.
Qed.

(** X10: in every reachable world a monitor whose configuration disables it
    is not running and has no thread, whatever has been called on it. *)
Theorem disabled_monitor_never_runs W r w :
  reachable W →
  heap W !! r = Some w →
  enabled w = false →
  is_running w = false ∧ thread w = None.
Proof.
  intros (ds & fs & tr & ->) Hw.
  destruct (evolves_execution tr (loaded ds fs)) as (_ & _ & _ & _ & Hsound & _).
  assert (Hw' : sound w).
  { eapply (Forall_lookup_1 sound); [|done]. by apply Hsound. }
  by destruct Hw' as (_ & _ & Hdis).
Qed.

(** X11: a loop writes at most one record.  Over any sequence of calls and
    thread steps, from any world, the complete records added to the restart
    log are at most as many as the threads that have entered a loop and had
    not ended at the start. *)
Theorem one_record_per_loop tr W :
  let W' := execution tr W in
  records (content restart_log_path (files (sys W'))) + finished (threads (sys W))
  ≤ records (content restart_log_path (files (sys W))) + entered (threads (sys W')).
Proof.
  cbn zeta. destruct (evolves_execution tr W) as (_ & _ & _ & _ & _ & Hrec).
  pose proof (finished_le_entered (threads (sys (execution tr W)))). lia.
Qed.

Lemma settings_max_failures w w' : settings w' = settings w → max_failures w' = max_failures w.
Proof. unfold settings. by intros [= _ _ ? _]. Qed.

Lemma pass_content env fr :
  sound (obj fr) →
  let fr' := after _monitor_loop_pass env fr in
  ∃ ls, content restart_log_path (files (fsys fr'))
        = content restart_log_path (files (fsys fr)) ++ ls
        ∧ Forall genuine ls.
Proof.
  intros (H0 & _). cbn zeta.
  destruct (pass_spec env fr) as (res & k & y & Heq & _ & _ & Hy).
  rewrite after_eq in *. rewrite Heq in *. cbn in *.
  destruct (escalates env (obj fr)) eqn:Hesc;
    [|exists []; by rewrite Hy, app_nil_r].
  destruct (auto_restart (obj fr));
    [|destruct Hy as [-> _]; exists []; by rewrite app_nil_r].
  destruct (disk_works env).
  - destruct Hy as [-> _]. eexists. rewrite content_appended. split; [done|].
    apply Forall_singleton. unfold escalates in Hesc.
    apply andb_prop in Hesc as [Hstale _].
    unfold stale in Hstale. apply andb_prop in Hstale as [_ Hstale].
    destruct (last_heartbeat (obj fr)) as [t|]; [|done].
    cbn. eexists _, _, t. split; [done|]. lia.
  - destruct Hy as (e & ls & Hls & -> & _). exists ls. split; [done|].
    destruct Hls as [-> | ->]; [done|]. by apply Forall_singleton.
Qed.

Lemma exec_content op env W :
  Forall sound (heap W) →
  let W' := after (exec op) env W in
  ∃ ls, content restart_log_path (files (sys W'))
        = content restart_log_path (files (sys W)) ++ ls
        ∧ Forall genuine ls.
Proof.
  intros Hall. cbn zeta.
  assert (Hsame : ∀ W', files (sys W') = files (sys W) →
    ∃ ls, content restart_log_path (files (sys W'))
          = content restart_log_path (files (sys W)) ++ ls
          ∧ Forall genuine ls).
  { intros W' ->. exists []. by rewrite app_nil_r. }
  assert (Hquiet : (∀ t, op ≠ OpThread t) →
    ∃ ls, content restart_log_path (files (sys (after (exec op) env W)))
          = content restart_log_path (files (sys W)) ++ ls
          ∧ Forall genuine ls).
  { intros Hop. apply Hsame.
    by destruct (quiet_exec op env W Hop) as (_ & _ & _ & ? & _). }
  destruct op as [cfg| | | |cfg|r m|t]; try by apply Hquiet.
  clear Hquiet. cbn [exec].
  destruct (threads (sys W) !! t) as [th|] eqn:Ht;
    [|by rewrite after_eq, thread_run_idle; [apply Hsame|rewrite Ht]].
  destruct (heap W !! target th) as [w|] eqn:Hw;
    [|by rewrite after_eq, (thread_run_fault _ _ _ _ _ Ht Hw); apply Hsame].
  destruct (tstate th) eqn:Hst.
  - rewrite after_eq, thread_run_idle; [by apply Hsame|]. rewrite Ht. auto.
  - rewrite after_eq, (thread_run_ready _ _ _ _ _ _ Ht Hst Hw). by apply Hsame.
  - unfold after. rewrite (thread_run_looping _ _ _ _ _ Ht Hst Hw). cbn.
    set (fr := {| this := target th; obj := w; fsys := sys W |}).
    fold (after _monitor_loop_pass env fr).
    destruct (pass_content env fr) as (ls & Hls & Hgen).
    { cbn. by eapply (Forall_lookup_1 sound). }
    cbn zeta in *. change (fsys fr) with (sys W) in Hls.
    exists ls. split; [|done].
    by destruct ((run _monitor_loop_pass env fr).1) as [[]|e|].
  - rewrite after_eq, thread_run_idle; [by apply Hsame|]. rewrite Ht. auto.
Qed.

Lemma genuine_execution tr : ∀ W,
  Forall sound (heap W) →
  ∃ ls, content restart_log_path (files (sys (execution tr W)))
        = content restart_log_path (files (sys W)) ++ ls
        ∧ Forall genuine ls.
Proof.
  induction tr as [|[op env] tr IH]; intros W Hall.
  { exists []. by rewrite app_nil_r. }
  change (execution ((op, env) :: tr) W) with (execution tr (after (exec op) env W)).
  destruct (exec_content op env W Hall) as (ls1 & Hc1 & Hls1).
  destruct (IH (after (exec op) env W)) as (ls2 & Hc2 & Hls2).
  { by apply (evolves_exec op env W). }
  exists (ls1 ++ ls2). split; [|by apply Forall_app].
  by rewrite Hc2, Hc1, <- (assoc (++)).
Qed.

(** X12: whatever the disk held when the module was loaded, every complete
    record that the program adds to the restart log is the dictionary of
    lines 111-116 with the time of a heartbeat, never null, and a
    [failure_count] that is not negative; the lines it adds come after
    those that were there. *)
Theorem restart_records_are_genuine ds fs tr :
  let W := execution tr (loaded ds fs) in
  ∃ ls, content restart_log_path (files (sys W)) = content restart_log_path fs ++ ls
        ∧ ∀ d, JsonLine d ∈ ls →
               ∃ now n t, d = restart_record now n (Some t) ∧ (0 ≤ n)%Z.
Proof.
  cbn zeta. destruct (genuine_execution tr (loaded ds fs)) as (ls & Hc & Hls); [done|].
  exists ls. split; [done|]. intros d Hd.
  by apply (proj1 (Forall_forall _ _) Hls _ Hd).
Qed.

(** ** The loop over its passes *)

Lemma passes_nonneg tr : (0 ≤ passes tr)%Z.
Proof. induction tr as [|[[m|] env] tr IH]; cbn [passes]; lia. Qed.

Lemma pass_files_below env fr :
  (failure_count (obj fr) + 1 < max_failures (obj fr))%Z →
  files (fsys (after _monitor_loop_pass env fr)) = files (fsys fr).
Proof.
  intros Hlt. destruct (pass_spec env fr) as (res & k & y & Heq & _ & _ & Hy).
  rewrite after_eq, Heq. cbn.
  assert (Hesc : escalates env (obj fr) = false).
  { unfold escalates. apply andb_false_intro2. by apply Z.leb_gt. }
  by rewrite Hesc in Hy.
Qed.

Lemma act_counts a env fr :
  (0 ≤ failure_count (obj fr))%Z →
  let fr' := after (act a) env fr in
  let one := passes [(a, env)] in
  (0 ≤ failure_count (obj fr') ≤ failure_count (obj fr) + one)%Z
  ∧ max_failures (obj fr') = max_failures (obj fr)
  ∧ ((failure_count (obj fr) + one < max_failures (obj fr))%Z →
     files (fsys fr') = files (fsys fr)).
Proof.
  intros H0. cbn zeta.
  destruct (act_spec a env fr) as (_ & Hset%settings_max_failures & Hact & _).
  split; [|split; [done|]].
  - destruct a as [[]|]; cbn [passes]; destruct Hact as (-> & _); try lia.
    destruct (stale env (obj fr)); lia.
  - destruct a as [m|]; cbn [passes act].
    + intros _. by destruct (always_after fquiet (method m) env fr (fquiet_method m))
        as (_ & _ & ? & _).
    + intros Hlt. rewrite after_ignore. apply pass_files_below. lia.
Qed.

(** X13: in the life of a monitor whose counter is not negative, the
    counter stays between 0 and its first value plus the number of passes
    of the loop, and as long as that sum is below [max_failures] no file is
    written: a restart is never recorded before the loop has made that many
    passes. *)
Theorem restart_needs_max_failures_passes tr fr :
  (0 ≤ failure_count (obj fr))%Z →
  let fr' := life tr fr in
  (0 ≤ failure_count (obj fr') ≤ failure_count (obj fr) + passes tr)%Z
  ∧ ((failure_count (obj fr) + passes tr < max_failures (obj fr))%Z →
     files (fsys fr') = files (fsys fr)).
Proof.
  cbn zeta. revert fr. induction tr as [|[a env] tr IH]; intros fr H0.
  { cbn. split; [lia|done]. }
  rewrite life_cons.
  destruct (act_counts a env fr H0) as (Hc & Hmax & Hfiles). cbn zeta in *.
  destruct (IH (after (act a) env fr)) as (Hc' & Hfiles'); [lia|].
  assert (Hsplit : passes ((a, env) :: tr) = (passes [(a, env)] + passes tr)%Z).
  { destruct a; cbn [passes]; lia. }
  rewrite Hsplit. pose proof (passes_nonneg tr). pose proof (passes_nonneg [(a, env)]).
  split; [lia|]. intros Hlt.
  rewrite Hfiles', Hfiles; [done|lia|]. rewrite Hmax. lia.
Qed.

Lemma passes_cons env envs fr :
  _monitor_loop_passes (env :: envs) fr =
    match (run _monitor_loop_pass env fr).1 with
    | Ok Again => _monitor_loop_passes envs (after _monitor_loop_pass env fr)
    | Ok Exit => (Some (Ok tt), after _monitor_loop_pass env fr)
    | Raise e => (Some (Raise e), after _monitor_loop_pass env fr)
    | Fault => (Some Fault, after _monitor_loop_pass env fr)
    end.
Proof.
  cbn -[run]. unfold after.
  by destruct (run _monitor_loop_pass env fr) as [[[]|e|] fr'].
Qed.

(** X14: a running loop with an interval that [time.sleep] accepts (not
    negative, and at most 9223372036 seconds) which finds the heartbeat
    stale at every pass counts one failure per pass, goes on until the pass
    that brings [failure_count] to [max_failures], and returns there; the
    monitor is then unchanged but for the counter ([is_running] included).
    Without [auto_restart] no file is changed; with it, the names [Path]
    and [json] bound and the disk working, exactly one record, with that
    count, is appended to the restart log. *)
Theorem silent_monitor_escalates envs env fr :
  let w := obj fr in
  (0 ≤ heartbeat_interval w ≤ 9223372036)%Z →
  Forall (λ e, stale e w = true) (envs ++ [env]) →
  (failure_count w + Z.of_nat (length envs) + 1 = max_failures w)%Z →
  let out := _monitor_loop_passes (envs ++ [env]) fr in
  out.1 = Some (Ok tt)
  ∧ obj out.2 = with_failure_count (max_failures w) w
  ∧ (auto_restart w = false → files (fsys out.2) = files (fsys fr))
  ∧ (auto_restart w = true → disk_works env = true →
     files (fsys out.2) =
       appended restart_log_path
         [JsonLine (restart_record (clock env 1) (max_failures w) (last_heartbeat w))]
         (files (fsys fr))).
Proof.
  cbn zeta. revert fr. induction envs as [|e envs IH]; intros fr Hpos Hstale Hcount.
  - cbn [app length] in *. apply (proj1 (Forall_singleton _ _)) in Hstale.
    cbn beta in Hstale.
    rewrite passes_cons, pass_result.
    assert (Hesc : escalates env (obj fr) = true).
    { unfold escalates. rewrite Hstale. cbn. apply Z.leb_le. lia. }
    rewrite Hesc, orb_true_r. cbn [fst snd].
    split; [done|]. rewrite pass_obj, Hstale.
    split; [f_equal; lia|].
    destruct (pass_spec env fr) as (res & k & y & Heq & _ & _ & Hy).
    rewrite after_eq, Heq. cbn. rewrite Hesc in Hy.
    destruct (auto_restart (obj fr)); cbn; [|split; [by destruct Hy|done]].
    split; [done|]. intros _ Hdisk. rewrite Hdisk in Hy. destruct Hy as [-> _].
    repeat f_equal. lia.
  - cbn [app length] in *. apply (proj1 (Forall_cons _ _ _)) in Hstale.
    destruct Hstale as [Hstale Hrest]. cbn beta in Hstale.
    rewrite passes_cons, pass_result.
    assert (Hrun : is_running (obj fr) = true).
    { unfold stale in Hstale. by apply andb_prop in Hstale as [? _]. }
    assert (Hesc : escalates e (obj fr) = false).
    { unfold escalates. apply andb_false_intro2, Z.leb_gt. lia. }
    rewrite Hrun, Hesc, (sleep_error_None _ Hpos). cbn [negb orb].
    pose proof (pass_obj e fr) as Hobj. rewrite Hstale in Hobj.
    destruct (pass_spec e fr) as (res & k & y & Heq & _ & _ & Hy).
    rewrite Hesc in Hy.
    assert (Hfiles : files (fsys (after _monitor_loop_pass e fr)) = files (fsys fr)).
    { by rewrite after_eq, Heq. }
    specialize (IH (after _monitor_loop_pass e fr)).
    rewrite Hobj in IH. cbn in IH. rewrite Hfiles in IH.
    destruct IH as (IH1 & IH2 & IH3); [done|done|lia|].
    split; [done|]. split; [by rewrite IH2|done].
Qed.



(** ** The defaults *)

(** X16: the fixed dictionary that [get_watchdog_status()] returns while
    there is no monitor agrees with the defaults of [__init__]: after
    [start_watchdog()] with no configuration, or an empty one, the status
    differs from it in [enabled] and [running] only. *)
Theorem default_status_matches_default_monitor cfg env env' W :
  _watchdog_instance W = None →
  cfg = None ∨ cfg = Some empty_config →
  can_start env = true →
  let W' := after (start_watchdog cfg) env W in
  ∃ d d', run get_watchdog_status env' W = (Ok d, W)
        ∧ run get_watchdog_status env' W' = (Ok d', W')
        ∧ d' = <["enabled" := VBool true]> (<["running" := VBool true]> d).
Proof.
  intros Hinst Hcfg Hstart. cbn zeta.
  assert (Hwf : wf W) by (unfold wf; by rewrite Hinst).
  assert (Hnone : running_instance W = None) by (unfold running_instance; by rewrite Hinst).
  destruct (start_watchdog_fresh cfg env 0 W Hwf Hnone) as (b & fr' & Hs & Hsw).
  cbn zeta in *.
  assert (Hinit : __init__ cfg = __init__ None) by by destruct Hcfg as [-> | ->].
  rewrite Hinit, start_spec in Hs. cbn in Hs.
  unfold can_start in Hstart. destruct (thread_start env); [done|].
  injection Hs as <- <-.
  exists not_started. eexists. split.
  { unfold run, get_watchdog_status, mbind, M_bind, gets. by rewrite Hinst. }
  rewrite after_eq, Hsw. cbn. split.
  - unfold run, get_watchdog_status, mbind at 1, M_bind at 1, gets. cbn.
    erewrite call_get_status; [done|]. cbn. apply lookup_new.
  - by vm_compute.
Qed.

(** ** The properties at concrete inputs *)

(** X1 at [monitoring]. *)
Lemma send_heartbeat_contract_witness :
  reachable monitoring
  ∧ (run send_heartbeat (fair_at (seconds 3)) monitoring).1 = Ok true.
Proof.
  assert (monitoring_reachable : reachable monitoring).
  { exists ∅, ∅,
      [(OpStartWatchdog (Some test_config), fair_at 0); (OpThread 0, fair_at 0)].
    reflexivity. }
  split; [exact monitoring_reachable|].
  pose proof (send_heartbeat_contract (fair_at (seconds 3)) (fair_at (seconds 4))
                monitoring monitoring_reachable) as H.
  cbv zeta in H. change (running_instance monitoring) with (Some 0%nat) in H.
  cbv beta iota in H. exact (proj1 H).
Defined.

(** X2 at [monitoring]. *)
Lemma stop_watchdog_contract_witness :
  reachable monitoring
  ∧ (run stop_watchdog (fair_at (seconds 1)) monitoring).1 = Ok true
  ∧ running_instance (run stop_watchdog (fair_at (seconds 1)) monitoring).2 = None.
Proof.
  assert (monitoring_reachable : reachable monitoring).
  { exists ∅, ∅,
      [(OpStartWatchdog (Some test_config), fair_at 0); (OpThread 0, fair_at 0)].
    reflexivity. }
  split; [exact monitoring_reachable|].
  pose proof (stop_watchdog_contract (fair_at (seconds 1)) (fair_at (seconds 2))
                monitoring monitoring_reachable) as H.
  cbv zeta in H. destruct H as (H1 & _ & H2 & _).
  split; [exact H1 | exact H2].
Defined.

(** X3 at [stopped_world]. *)
Lemma stopped_loop_exits_at_next_pass_witness :
  threads (sys stopped_world) !! 0%nat = Some {| target := 0%nat; tstate := Looping |}
  ∧ heap stopped_world !! 0%nat
    = Some (with_is_running false
              (with_thread (Some 0%nat)
                 (with_is_running true (__init__ (Some test_config)))))
  ∧ run (Thread_run 0) (fair_at (seconds 5)) stopped_world =
      (Ok tt,
       {| heap := heap stopped_world;
          _watchdog_instance := _watchdog_instance stopped_world;
          sys := with_threads
                   (alter (set_tstate Finished) 0%nat (threads (sys stopped_world)))
                   (sys stopped_world) |}).
Proof.
  split; [reflexivity|]. split; [reflexivity|].
  exact (stopped_loop_exits_at_next_pass 0%nat {| target := 0%nat; tstate := Looping |} _
           (fair_at (seconds 5)) stopped_world eq_refl eq_refl eq_refl eq_refl).
Defined.

(** X5 at [negative_world]. *)
Lemma negative_interval_ends_the_loop_witness :
  threads (sys negative_world) !! 0%nat = Some {| target := 0%nat; tstate := Looping |}
  ∧ heap negative_world !! 0%nat
    = Some (with_thread (Some 0%nat)
              (with_is_running true (__init__ (Some negative_config))))
  ∧ threads (sys (after (Thread_run 0) (fair_at 0) negative_world))
    = alter (set_tstate Finished) 0%nat (threads (sys negative_world))
  ∧ ∃ w', heap (after (Thread_run 0) (fair_at 0) negative_world) !! 0%nat = Some w'
          ∧ is_running w' = true.
Proof.
  split; [reflexivity|]. split; [reflexivity|].
  pose proof (negative_interval_ends_the_loop 0%nat {| target := 0%nat; tstate := Looping |}
                _ (fair_at 0) negative_world eq_refl eq_refl eq_refl eq_refl eq_refl) as H.
  cbv zeta in H. destruct H as (H1 & H2 & _).
  split; [exact H1 | exact H2].
Defined.

(** X6 at [monitoring], over [stale_run]. *)
Lemma monitors_keep_their_settings_witness :
  heap monitoring !! 0%nat
    = Some (with_thread (Some 0%nat) (with_is_running true (__init__ (Some test_config))))
  ∧ ∃ w', heap (execution stale_run monitoring) !! 0%nat = Some w'
          ∧ max_failures w' = 2%Z.
Proof.
  split; [reflexivity|].
  destruct (monitors_keep_their_settings stale_run monitoring 0%nat _ eq_refl)
    as [(w' & Hw' & _ & _ & Hmax & _) _].
  exists w'. split; [exact Hw' | exact Hmax].
Defined.

(** X7 at [monitoring], over [stale_run]. *)
Lemma thread_states_only_advance_witness :
  threads (sys monitoring) !! 0%nat = Some {| target := 0%nat; tstate := Looping |}
  ∧ ∃ th', threads (sys (execution stale_run monitoring)) !! 0%nat = Some th'
           ∧ target th' = 0%nat
           ∧ 2 ≤ rank (tstate th').
Proof.
  split; [reflexivity|].
  destruct (thread_states_only_advance stale_run monitoring 0%nat _ eq_refl)
    as (th' & Hth' & Htg & Hrk).
  exists th'. split; [exact Hth'|]. split; [exact Htg | exact Hrk].
Defined.

(** X9 at [monitoring]. *)
Lemma failure_count_is_sound_witness :
  reachable monitoring
  ∧ (0 ≤ failure_count
           (with_thread (Some 0%nat)
              (with_is_running true (__init__ (Some test_config)))))%Z.
Proof.
  assert (monitoring_reachable : reachable monitoring).
  { exists ∅, ∅,
      [(OpStartWatchdog (Some test_config), fair_at 0); (OpThread 0, fair_at 0)].
    reflexivity. }
  split; [exact monitoring_reachable|].
  exact (proj1 (failure_count_is_sound monitoring 0%nat _ monitoring_reachable eq_refl)).
Defined.

(** X10 at [disabled_world]. *)
Lemma disabled_monitor_never_runs_witness :
  reachable disabled_world
  ∧ heap disabled_world !! 0%nat = Some (__init__ (Some disabled_config))
  ∧ is_running (__init__ (Some disabled_config)) = false.
Proof.
  assert (disabled_world_reachable : reachable disabled_world).
  { exists ∅, ∅, [(OpStartWatchdog (Some disabled_config), fair_at 0)]. reflexivity. }
  split; [exact disabled_world_reachable|]. split; [reflexivity|].
  exact (proj1 (disabled_monitor_never_runs disabled_world 0%nat _
                  disabled_world_reachable eq_refl eq_refl)).
Defined.

(** X13 at [stale_frame], one pass. *)
Lemma restart_needs_max_failures_passes_witness :
  (0 ≤ failure_count (obj stale_frame))%Z
  ∧ (failure_count (obj stale_frame) + passes [(Pass, fair_at (seconds 15))]
     < max_failures (obj stale_frame))%Z
  ∧ files (fsys (life [(Pass, fair_at (seconds 15))] stale_frame))
    = files (fsys stale_frame).
Proof.
  assert (H0 : (0 ≤ failure_count (obj stale_frame))%Z) by (intros H; discriminate H).
  split; [exact H0|]. split; [reflexivity|].
  pose proof (restart_needs_max_failures_passes [(Pass, fair_at (seconds 15))]
                stale_frame H0) as H.
  cbv zeta in H. exact (proj2 H eq_refl).
Defined.

(** X14 at [stale_frame], two stale passes. *)
Lemma silent_monitor_escalates_witness :
  (0 ≤ heartbeat_interval (obj stale_frame) ≤ 9223372036)%Z
  ∧ Forall (λ e, stale e (obj stale_frame) = true)
      ([fair_at (seconds 15)] ++ [fair_at (seconds 20)])
  ∧ (_monitor_loop_passes ([fair_at (seconds 15)] ++ [fair_at (seconds 20)])
       stale_frame).1 = Some (Ok tt)
  ∧ obj (_monitor_loop_passes ([fair_at (seconds 15)] ++ [fair_at (seconds 20)])
           stale_frame).2
    = with_failure_count (max_failures (obj stale_frame)) (obj stale_frame).
Proof.
  assert (Hpos : (0 ≤ heartbeat_interval (obj stale_frame) ≤ 9223372036)%Z)
    by (split; intros H; discriminate H).
  assert (Hstale : Forall (λ e, stale e (obj stale_frame) = true)
                     ([fair_at (seconds 15)] ++ [fair_at (seconds 20)])).
  { repeat constructor. }
  split; [exact Hpos|]. split; [exact Hstale|].
  pose proof (silent_monitor_escalates [fair_at (seconds 15)] (fair_at (seconds 20))
                stale_frame Hpos Hstale eq_refl) as H.
  cbv zeta in H. destruct H as (H1 & H2 & _).
  split; [exact H1 | exact H2].
Defined.


(** X16 at [boot]. *)
Lemma default_status_matches_default_monitor_witness :
  _watchdog_instance boot = None
  ∧ can_start (fair_at 0) = true
  ∧ ∃ d d', run get_watchdog_status (fair_at (seconds 1)) boot = (Ok d, boot)
          ∧ run get_watchdog_status (fair_at (seconds 1))
              (after (start_watchdog None) (fair_at 0) boot)
            = (Ok d', after (start_watchdog None) (fair_at 0) boot)
          ∧ d' = <["enabled" := VBool true]> (<["running" := VBool true]> d).
Proof.
  split; [reflexivity|]. split; [reflexivity|].
  exact (default_status_matches_default_monitor None (fair_at 0) (fair_at (seconds 1))
           boot eq_refl (or_introl eq_refl) eq_refl).
Defined.
